(** * Bootstrap test harness, runtime context and library support

    A shallow embedding of
    - [test_and_benchmark/test/test_bootstrap.cpp] (module [Harness]),
    - [lib/Runtime/context.cpp] (module [Runtime]),
    - [concretelang/Support/LibrarySupport.h] (module [Support]),
    followed by the properties of the specification stated over them. *)

From Stdlib Require Import ZArith Lia List Ascii DecimalString DecimalZ.
From stdpp Require Import gmap strings list fin_maps.

Local Open Scope Z_scope.

(** * Part I: the programs *)

(** ** Unsigned 64-bit scalars

    A [uint64_t] is a [Z] in [[0, 2^64)]; every operation that can leave
    that range in C is reduced modulo [2^64]. *)
Module U64.

Definition modulus : Z := 2 ^ 64.

Definition in_range (z : Z) : Prop := 0 <= z < modulus.

Definition wrap (z : Z) : Z := z mod modulus.

Definition add (a b : Z) : Z := wrap (a + b).
Definition sub (a b : Z) : Z := wrap (a - b).
Definition mul (a b : Z) : Z := wrap (a * b).
Definition shl (a n : Z) : Z := wrap (Z.shiftl a n).
Definition shr (a n : Z) : Z := Z.shiftr a n.
Definition and (a b : Z) : Z := Z.land a b.
(** Division by zero is undefined in C; the harness divides by
    [delta], which is never zero. *)
Definition div (a b : Z) : Z := a / b.

(** The two's-complement reading of a 64-bit scalar, used to speak
    about a signed noise term. *)
Definition signed (z : Z) : Z :=
  let w := wrap z in if w <? 2 ^ 63 then w else w - modulus.

End U64.

(** ** C [int] arithmetic

    Signed overflow and division by zero are undefined behaviour: the
    operations return [None] there.  Division truncates towards zero. *)
Module Int.

Definition min : Z := - 2 ^ 31.
Definition max : Z := 2 ^ 31 - 1.

Definition fits (z : Z) : bool := (min <=? z) && (z <=? max).

Definition check (z : Z) : option Z := if fits z then Some z else None.

Definition add (a b : Z) : option Z := check (a + b).
Definition mul (a b : Z) : option Z := check (a * b).
Definition div (a b : Z) : option Z :=
  if b =? 0 then None else check (Z.quot a b).

End Int.

(** ** The bootstrap test harness ([test_bootstrap.cpp]) *)
Module Harness.

(** A floating-point literal of the source, kept as written:
    [mantissa * 10 ^ exponent].  The harness only forwards the two
    variances to [bootstrap_setup]; it never computes with them. *)
Record double_literal := {
  mantissa : Z;
  exponent : Z
}.

(** [typedef struct { ... } BootstrapTestParams;] (lines 9-22) *)
Record BootstrapTestParams := {
  lwe_dimension : Z;
  glwe_dimension : Z;
  polynomial_size : Z;
  lwe_modular_variance : double_literal;
  glwe_modular_variance : double_literal;
  pbs_base_log : Z;
  pbs_level : Z;
  message_modulus : Z;
  carry_modulus : Z;
  number_of_inputs : Z;
  repetitions : Z;
  samples : Z
}.

Definition variance_7_52e_25 : double_literal :=
  {| mantissa := 752316384526264; exponent := -39 |}.

Definition mk_params (n k N base_log level mm cm inputs reps smpl : Z)
  : BootstrapTestParams :=
  {| lwe_dimension := n; glwe_dimension := k; polynomial_size := N;
     lwe_modular_variance := variance_7_52e_25;
     glwe_modular_variance := variance_7_52e_25;
     pbs_base_log := base_log; pbs_level := level;
     message_modulus := mm; carry_modulus := cm;
     number_of_inputs := inputs; repetitions := reps; samples := smpl |}.

(** [pbs_params_u64] (lines 211-231): the parameter sets the two tests
    are instantiated with. *)
Definition pbs_params_u64 : list BootstrapTestParams :=
  [ mk_params 567 5 256 15 1 2 1 5 2 5;
    mk_params 623 6 256 9 3 2 2 5 2 50;
    mk_params 694 3 512 18 1 2 1 5 2 50;
    mk_params 769 2 1024 23 1 2 1 5 2 50;
    mk_params 754 1 2048 23 1 4 1 5 2 50;
    mk_params 847 1 4096 2 12 2 1 2 1 50;
    mk_params 881 1 8192 22 1 2 1 2 1 25;
    mk_params 976 1 16384 11 3 4 1 2 1 10 ].

(** *** The decode step (lines 140-144 and 198-202)

    [uint64_t rounding_bit = delta >> 1;]
    [uint64_t rounding = (decrypted & rounding_bit) << 1;]
    [uint64_t decoded = (decrypted + rounding) / delta;] *)
Definition rounding_bit (delta : Z) : Z := U64.shr delta 1.

Definition rounding (decrypted delta : Z) : Z :=
  U64.shl (U64.and decrypted (rounding_bit delta)) 1.

Definition decoded (decrypted delta : Z) : Z :=
  U64.div (U64.add decrypted (rounding decrypted delta)) delta.

(** *** The low-latency guard (line 155)

    [number_of_sm * 4 / (glwe_dimension + 1) / pbs_level], evaluated
    left to right on [int]. *)
Definition low_latency_limit (number_of_sm glwe_dim level : Z) : option Z :=
  a ← Int.mul number_of_sm 4;
  b ← Int.add glwe_dim 1;
  c ← Int.div a b;
  Int.div c level.

(** Modelled from the spec: the bound of section 4.4, which is stated
    on mathematical integers,
    [(compute_units_available * 4) / ((glwe_dimension + 1) * pbs_level)]. *)
Definition spec_limit (compute_units_available glwe_dim level : Z) : Z :=
  (compute_units_available * 4) / ((glwe_dim + 1) * level).

(** *** Decryption *)

(** Modelled from the spec: the inner product of mask and secret key
    that section 4.1 names, taken modulo [2^64] like the scalars of
    section 3. *)
Fixpoint inner_product (a b : list Z) : Z :=
  match a, b with
  | x :: a', y :: b' => U64.add (U64.mul x y) (inner_product a' b')
  | _, _ => 0
  end.

(** Modelled from the spec: [concrete_cpu_decrypt_lwe_ciphertext_u64]
    is not part of the sources at hand.  The spec (section 3) gives an
    LWE ciphertext as [lwe_dimension + 1] scalars (mask, then body) and
    (section 4.1) decryption as the exact linear recovery by the inner
    product with the secret key, yielding a noisy scalar. *)
Definition concrete_cpu_decrypt_lwe_ciphertext_u64
    (lwe_sk lwe_ct : list Z) (lwe_dim : Z) : Z :=
  let n := Z.to_nat lwe_dim in
  U64.sub (nth n lwe_ct 0) (inner_product (firstn n lwe_sk) (firstn n lwe_ct)).

(** *** What the tests do, as a trace *)

Inductive variant := Amortized | LowLatency.

(** The observable steps of a test body, in program order; launches,
    copies and synchronisations name the stream they are issued on.
    [SynchronizeStream] stands for [cuda_synchronize_stream]; it is
    part of the vocabulary so that orderings can be stated, and no
    statement of either test emits it. *)
Inductive event :=
| KernelLaunch (v : variant) (stream : Z) (r s : Z)
| MemcpyAsyncToCpu (stream : Z) (r s : Z)
| SynchronizeStream (stream : Z)
| HostRead (r s j : Z)
| ExpectNe (r s j : Z) (passed : bool)
| ExpectEq (r s j : Z) (passed : bool)
| Skip (message : string).

(** [for (int i = 0; i < n; i++) body(i)], collecting what the
    iterations emit. *)
Definition for_loop (n : Z) (body : Z -> list event) : list event :=
  flat_map body (map Z.of_nat (seq 0 (Z.to_nat n))).

(** *** The index and size expressions of the tests

    The source computes them on [int], left to right; as for the guard,
    a signed overflow is undefined behaviour and gives [None]. *)

Definition sizeof_uint64_t : Z := 8.

(** [glwe_dimension * polynomial_size] (lines 133, 191) *)
Definition glwe_size (p : BootstrapTestParams) : option Z :=
  Int.mul (glwe_dimension p) (polynomial_size p).

(** [glwe_dimension * polynomial_size + 1] *)
Definition output_size (p : BootstrapTestParams) : option Z :=
  a ← glwe_size p; Int.add a 1.

(** [bsk_size] (lines 99-100, 157-158) *)
Definition bsk_size (p : BootstrapTestParams) : option Z :=
  a ← Int.add (glwe_dimension p) 1;
  b ← Int.mul a a;
  c ← Int.mul b (pbs_level p);
  d ← Int.mul c (polynomial_size p);
  e ← Int.add (lwe_dimension p) 1;
  Int.mul d e.

(** [bsk_size * r] (line 103) *)
Definition bsk_offset (p : BootstrapTestParams) (r : Z) : option Z :=
  a ← bsk_size p; Int.mul a r.

(** [r * glwe_dimension * polynomial_size] (line 105) *)
Definition sk_out_offset (p : BootstrapTestParams) (r : Z) : option Z :=
  a ← Int.mul r (glwe_dimension p); Int.mul a (polynomial_size p).

(** [r * samples * number_of_inputs + s * number_of_inputs] *)
Definition batch_index (p : BootstrapTestParams) (r s : Z) : option Z :=
  a ← Int.mul r (samples p);
  b ← Int.mul a (number_of_inputs p);
  c ← Int.mul s (number_of_inputs p);
  Int.add b c.

(** The offset of lines 109-110 and 167-168. *)
Definition input_offset (p : BootstrapTestParams) (r s : Z) : option Z :=
  a ← batch_index p r s;
  b ← Int.add (lwe_dimension p) 1;
  Int.mul a b.

(** The index of lines 129-130 and 187-188,
    [r * samples * number_of_inputs + s * number_of_inputs + j]. *)
Definition plaintext_index (p : BootstrapTestParams) (r s j : Z) : option Z :=
  a ← batch_index p r s; Int.add a j.

(** [j * (glwe_dimension * polynomial_size + 1)] (lines 128, 186) *)
Definition result_offset (p : BootstrapTestParams) (j : Z) : option Z :=
  a ← output_size p; Int.mul j a.

(** [(glwe_dimension * polynomial_size + 1) * number_of_inputs], the
    [int] factor of the sizes at lines 85-86, 121-122 and 179-180. *)
Definition copy_back_count (p : BootstrapTestParams) : option Z :=
  a ← output_size p; Int.mul a (number_of_inputs p).

(** Lines 84-86 ([SetUp]): the bytes asked of [malloc] for
    [lwe_ct_out_array]; lines 120-123 and 178-181 ask
    [cuda_memcpy_async_to_cpu] for the same expression.  The [int]
    product is widened to [size_t] and multiplied by
    [sizeof(uint64_t)] there. *)
Definition lwe_ct_out_array_bytes (p : BootstrapTestParams) : option Z :=
  c ← copy_back_count p; Some (U64.mul (U64.wrap c) sizeof_uint64_t).

(** The byte offset, in [lwe_ct_out_array], of scalar [i] of the
    ciphertext [result] of output [j] (lines 126-128): the [int]
    offset is widened to [ptrdiff_t] before it is added to the
    pointer. *)
Definition result_byte_offset (p : BootstrapTestParams) (j i : Z) : option Z :=
  off ← result_offset p j; Some ((off + i) * sizeof_uint64_t).


(** [ptr + (ptrdiff_t)off] on an array held as a list; nothing lies
    before the start of an array. *)
Definition offset {A} (arr : list A) (off : Z) : list A :=
  if off <? 0 then [] else skipn (Z.to_nat off) arr.

(** The same with an [int] offset; where the offset is undefined
    nothing is known of the array, which is modelled as empty. *)
Definition offset_at {A} (arr : list A) (off : option Z) : list A :=
  match off with
  | Some off => offset arr off
  | None => []
  end.


Section Tests.

(** Device-side doubles (the Fourier-domain bootstrap key) are
    opaque to the harness. *)
Variable double : Type.

(** The state [SetUp] leaves in the fixture (lines 58-87), as far as
    the test bodies read it.  All of it but [params] is produced by
    [bootstrap_setup]. *)
Record Fixture := {
  params : BootstrapTestParams;
  stream : Z;
  payload_modulus : Z;
  delta : Z;
  lwe_sk_in_array : list Z;
  lwe_sk_out_array : list Z;
  plaintexts : list Z;
  d_fourier_bsk_array : list double;
  d_lut_pbs_identity : list Z;
  d_lut_pbs_indexes : list Z;
  d_lwe_ct_in_array : list Z
}.

(** Modelled from the spec: [bootstrap_setup] is not part of the
    sources at hand.  The spec (section 3) gives
    [delta = 2^64 / (message_modulus * carry_modulus * 2)], and
    section 8 takes plaintexts as the messages of
    [[0, message_modulus * carry_modulus)] scaled by [delta]. *)
Definition spec_delta (p : BootstrapTestParams) : Z :=
  2 ^ 64 / (message_modulus p * carry_modulus p * 2).

(** Modelled from the spec: a plaintext is a message of
    [[0, payload_modulus)] scaled by [delta]. *)
Definition scaled_message (fx : Fixture) (pt : Z) : bool :=
  (pt mod delta fx =? 0) && (0 <=? pt) && (pt / delta fx <? payload_modulus fx).

(** Modelled from the spec: what [bootstrap_setup] establishes for the
    fixture, as far as the test bodies rely on it. *)
Definition setup_ok (fx : Fixture) : bool :=
  (payload_modulus fx =? message_modulus (params fx) * carry_modulus (params fx))
  && (delta fx =? spec_delta (params fx))
  && forallb (scaled_message fx) (plaintexts fx).

(** The two kernel entry points, as functions from what they are
    given to the contents they leave in [d_lwe_ct_out_array]:
    LUT, LUT indexes, input ciphertexts, bootstrap key, then
    [lwe_dimension], [glwe_dimension], [polynomial_size],
    [pbs_base_log], [pbs_level], [number_of_inputs], the two
    literals [1] and [0], and the shared-memory size. *)
Definition kernel : Type :=
  list Z -> list Z -> list Z -> list double ->
  Z -> Z -> Z -> Z -> Z -> Z -> Z -> Z -> Z -> list Z.

Variable cuda_bootstrap_amortized_lwe_ciphertext_vector_64 : kernel.
Variable cuda_bootstrap_low_latency_lwe_ciphertext_vector_64 : kernel.
(** [cuda_get_max_shared_memory(gpu_index)] *)
Variable max_shared_memory : Z.

Definition entry_point (v : variant) : kernel :=
  match v with
  | Amortized => cuda_bootstrap_amortized_lwe_ciphertext_vector_64
  | LowLatency => cuda_bootstrap_low_latency_lwe_ciphertext_vector_64
  end.

Variable fx : Fixture.

(** Lines 103-105. *)
Definition d_fourier_bsk (r : Z) : list double :=
  offset_at (d_fourier_bsk_array fx) (bsk_offset (params fx) r).

Definition lwe_sk_out (r : Z) : list Z :=
  offset_at (lwe_sk_out_array fx) (sk_out_offset (params fx) r).

(** Lines 107-110. *)
Definition d_lwe_ct_in (r s : Z) : list Z :=
  offset_at (d_lwe_ct_in_array fx) (input_offset (params fx) r s).

(** Lines 112-118: the contents of [d_lwe_ct_out_array] after the
    launch of iteration [(r, s)]. *)
Definition d_lwe_ct_out_array (v : variant) (r s : Z) : list Z :=
  let p := params fx in
  entry_point v (d_lut_pbs_identity fx) (d_lut_pbs_indexes fx)
    (d_lwe_ct_in r s) (d_fourier_bsk r)
    (lwe_dimension p) (glwe_dimension p) (polynomial_size p)
    (pbs_base_log p) (pbs_level p) (number_of_inputs p) 1 0
    max_shared_memory.

(** Lines 120-123: the host buffer receives
    [(glwe_dimension * polynomial_size + 1) * number_of_inputs * sizeof(uint64_t)]
    bytes of the device buffer; these are its contents once the copy
    enqueued behind the launch has been carried out.  Where the size
    is undefined nothing is known of the buffer, which is modelled as
    empty. *)
Definition lwe_ct_out_array (v : variant) (r s : Z) : list Z :=
  match lwe_ct_out_array_bytes (params fx) with
  | Some bytes => firstn (Z.to_nat (bytes / sizeof_uint64_t)) (d_lwe_ct_out_array v r s)
  | None => []
  end.

(** Lines 126-133.  Where an [int] index is undefined the scalar read
    has no meaning and [0] stands for it; what is stated of these
    values is stated under [iteration_defined]. *)
Definition result (v : variant) (r s j : Z) : list Z :=
  offset_at (lwe_ct_out_array v r s) (result_offset (params fx) j).

Definition plaintext (r s j : Z) : Z :=
  match plaintext_index (params fx) r s j with
  | Some i => nth (Z.to_nat i) (plaintexts fx) 0
  | None => 0
  end.

Definition decrypted (v : variant) (r s j : Z) : Z :=
  match glwe_size (params fx) with
  | Some n => concrete_cpu_decrypt_lwe_ciphertext_u64 (lwe_sk_out r) (result v r s j) n
  | None => 0
  end.


(** Lines 125-147 (and 183-204): the body of the loop over [j]. *)
Definition check_output (v : variant) (r s j : Z) : list event :=
  [ HostRead r s j;
    ExpectNe r s j (negb (decrypted v r s j =? plaintext r s j));
    ExpectEq r s j
      (decoded (decrypted v r s j) (delta fx) =? U64.div (plaintext r s j) (delta fx)) ].

(** Lines 106-148: the body of the loop over [s]. *)
Definition run_sample (v : variant) (r s : Z) : list event :=
  KernelLaunch v (stream fx) r s :: MemcpyAsyncToCpu (stream fx) r s ::
  for_loop (number_of_inputs (params fx)) (check_output v r s).

(** Lines 102-149: the loop nest shared by both tests. *)
Definition run_pbs (v : variant) : list event :=
  for_loop (repetitions (params fx))
    (fun r => for_loop (samples (params fx)) (run_sample v r)).

(** [TEST_P(BootstrapTestPrimitives_u64, amortized_bootstrap)] *)
Definition amortized_bootstrap : list event := run_pbs Amortized.

Definition skip_message : string :=
  "The Low Latency PBS does not support this configuration".

(** [TEST_P(BootstrapTestPrimitives_u64, low_latency_bootstrap)];
    [number_of_sm] is what [cudaDeviceGetAttribute] reports.  [None]
    when the guard's [int] arithmetic is undefined. *)
Definition low_latency_bootstrap (number_of_sm : Z) : option (list event) :=
  limit ← low_latency_limit number_of_sm
             (glwe_dimension (params fx)) (pbs_level (params fx));
  if limit <? number_of_inputs (params fx)
  then Some [Skip skip_message]
  else Some (run_pbs LowLatency).

(** Running the test named by [v]. *)
Definition run_test (v : variant) (number_of_sm : Z) : option (list event) :=
  match v with
  | Amortized => Some amortized_bootstrap
  | LowLatency => low_latency_bootstrap number_of_sm
  end.

End Tests.

(** *** The round trip, as far as the spec describes it *)




(** *** Orderings on a trace *)

(** Every host read happens while no device-to-host copy is pending,
    a copy being pending, on the stream it was issued on, from its call
    until the next explicit synchronisation of that stream. *)
Definition synchronize (pending : option Z) (stream : Z) : option Z :=
  match pending with
  | Some stream' => if stream =? stream' then None else pending
  | None => None
  end.

Fixpoint reads_synchronized (pending : option Z) (t : list event) : bool :=
  match t with
  | [] => true
  | MemcpyAsyncToCpu stream _ _ :: t' => reads_synchronized (Some stream) t'
  | SynchronizeStream stream :: t' => reads_synchronized (synchronize pending stream) t'
  | HostRead _ _ _ :: t' =>
      match pending with
      | None => reads_synchronized pending t'
      | Some _ => false
      end
  | _ :: t' => reads_synchronized pending t'
  end.

(** What the stream has been asked to do for the host buffer so far. *)
Inductive stage :=
| Idle
| Launched (v : variant) (stream : Z) (r s : Z)
| Copied (v : variant) (stream : Z) (r s : Z).

Definition advance (st : stage) (e : event) : option stage :=
  match e, st with
  | KernelLaunch v stream r s, _ => Some (Launched v stream r s)
  | MemcpyAsyncToCpu stream r s, Launched v stream' r' s' =>
      if (stream =? stream') && (r =? r') && (s =? s')
      then Some (Copied v stream r s) else None
  | MemcpyAsyncToCpu _ _ _, _ => None
  | HostRead r s _, Copied v _ r' s' =>
      if (r =? r') && (s =? s') then Some st else None
  | HostRead _ _ _, _ => None
  | _, _ => Some st
  end.

(** Every host read of iteration [(r, s)] comes, in program order,
    after the copy of that iteration, itself enqueued after the launch
    of that iteration and on the stream of that launch. *)
Fixpoint reads_follow_copy (st : stage) (t : list event) : bool :=
  match t with
  | [] => true
  | e :: t' =>
      match advance st e with
      | Some st' => reads_follow_copy st' t'
      | None => false
      end
  end.

Definition is_launch (e : event) : bool :=
  match e with KernelLaunch _ _ _ _ => true | _ => false end.

Definition is_synchronize (e : event) : bool :=
  match e with SynchronizeStream _ => true | _ => false end.

(** *** Counting what a trace holds *)

Definition is_host_read (e : event) : bool :=
  match e with HostRead _ _ _ => true | _ => false end.

Definition is_expect_eq (e : event) : bool :=
  match e with ExpectEq _ _ _ _ => true | _ => false end.

Definition is_expect_ne (e : event) : bool :=
  match e with ExpectNe _ _ _ _ => true | _ => false end.

Definition count (f : event -> bool) (t : list event) : nat :=
  length (List.filter f t).

(** *** Test names (lines 233-242) *)

(** [std::to_string(int)]: the decimal numeral, with a leading minus
    sign below zero. *)
Definition to_string (z : Z) : string :=
  NilEmpty.string_of_int (Z.to_int z).

Definition printParamName (p : BootstrapTestParams) : string :=
  "n_" +:+ to_string (lwe_dimension p) +:+ "_k_" +:+
  to_string (glwe_dimension p) +:+ "_N_" +:+
  to_string (polynomial_size p) +:+ "_pbs_base_log_" +:+
  to_string (pbs_base_log p) +:+ "_pbs_level_" +:+
  to_string (pbs_level p) +:+ "_number_of_inputs_" +:+
  to_string (number_of_inputs p).

(** The characters a test name may be made of: ASCII letters, digits and
    the underscore. *)
Definition name_char (c : Ascii.ascii) : bool :=
  let n := Ascii.nat_of_ascii c in
  ((48 <=? n) && (n <=? 57) || (65 <=? n) && (n <=? 90) ||
   (97 <=? n) && (n <=? 122) || (n =? 95))%nat.

(** The characters of a decimal numeral: digits and the minus sign. *)
Definition numeral_char (c : Ascii.ascii) : bool :=
  let n := Ascii.nat_of_ascii c in
  ((48 <=? n) && (n <=? 57) || (n =? 45))%nat.

Fixpoint string_forall (f : Ascii.ascii -> bool) (s : string) : bool :=
  match s with
  | EmptyString => true
  | String c s' => f c && string_forall f s'
  end.

End Harness.

(** ** The runtime context ([lib/Runtime/context.cpp]) *)
Module Runtime.

(** [RuntimeContext::BASE_CONTEXT_BSK] (line 17) *)
Definition BASE_CONTEXT_BSK : string := "_concretelang_base_context_bsk".

(** A [LweBootstrapKey_u64 *]: null, or the address of a key object. *)
Inductive pointer :=
| nullptr
| address (l : positive).

(** [RuntimeContext], as far as this file reads it: the keyswitch key
    and the [std::map<std::string, LweBootstrapKey_u64 *>] of
    bootstrap keys. *)
Record RuntimeContext := {
  ksk : pointer;
  bsk : gmap string pointer
}.

(** The program state: the key objects alive on the heap (of some
    content type [K]) and the context. *)
Record state (K : Type) := {
  keys : gmap positive K;
  context : RuntimeContext
}.
Arguments keys {K} _.
Arguments context {K} _.

(** How a call ends: with a value, in a failed [assert], or in
    undefined behaviour. *)
Inductive outcome (A : Type) :=
| Returned (a : A)
| AssertionFailed (message : string)
| UndefinedBehaviour.
Arguments Returned {A} _.
Arguments AssertionFailed {A} _.
Arguments UndefinedBehaviour {A}.

(** Lines 22-25. *)
Definition get_keyswitch_key {K} (st : state K) : pointer :=
  ksk (context st).

(** [m[k]] on a [std::map]: a missing key is first inserted with a
    value-initialised (null) pointer. *)
Definition map_index (m : gmap string pointer) (k : string)
  : pointer * gmap string pointer :=
  match m !! k with
  | Some p => (p, m)
  | None => (nullptr, <[k := nullptr]> m)
  end.

(** [m.insert({k, v}).first->second]: insertion only if [k] is
    absent; the iterator designates the entry now stored under [k]. *)
Definition map_insert (m : gmap string pointer) (k : string) (v : pointer)
  : pointer * gmap string pointer :=
  match m !! k with
  | Some p => (p, m)
  | None => (v, <[k := v]> m)
  end.

(** Modelled from the spec: [clone_lwe_bootstrap_key_u64] belongs to
    the key library and is not part of the sources at hand.
    The spec (section 5) has the context clone the base key into a slot
    of its own for the thread, and (section 8) makes every clone an independent
    key that bootstraps like the original: a fresh object holding a
    copy of the key.  Cloning a pointer that designates no key is
    undefined ([None]). *)
Definition clone_lwe_bootstrap_key_u64 {K} (h : gmap positive K) (p : pointer)
  : option (pointer * gmap positive K) :=
  match p with
  | nullptr => None
  | address l =>
      match h !! l with
      | Some k => let l' := fresh (dom h) in Some (address l', <[l' := k]> h)
      | None => None
      end
  end.

Definition assert_message : string := "No bootstrap key available in context".

(** Lines 44-45: [assert(bskIt->second && "..."); return bskIt->second;]
    with [ndebug] telling whether [assert] is compiled out. *)
Definition assert_and_return (ndebug : bool) (p : pointer) : outcome pointer :=
  match p with
  | nullptr => if ndebug then Returned nullptr else AssertionFailed assert_message
  | address _ => Returned p
  end.

(** Lines 27-46.  [parallel] is [CONCRETELANG_PARALLEL_EXECUTION_ENABLED];
    [threadName] is what [hpx::get_thread_name()] answers, read only in
    the parallel build. *)
Definition get_bootstrap_key {K} (parallel ndebug : bool) (threadName : string)
    (st : state K) : outcome pointer * state K :=
  let ctx := context st in
  if parallel then
    match bsk ctx !! threadName with
    | Some p => (assert_and_return ndebug p, st)
    | None =>
        let '(base, m1) := map_index (bsk ctx) BASE_CONTEXT_BSK in
        match clone_lwe_bootstrap_key_u64 (keys st) base with
        | None =>
            (UndefinedBehaviour,
             {| keys := keys st; context := {| ksk := ksk ctx; bsk := m1 |} |})
        | Some (c, h') =>
            let '(p, m2) := map_insert m1 threadName c in
            (assert_and_return ndebug p,
             {| keys := h'; context := {| ksk := ksk ctx; bsk := m2 |} |})
        end
    end
  else
    match bsk ctx !! BASE_CONTEXT_BSK with
    | Some p => (assert_and_return ndebug p, st)
    | None => (UndefinedBehaviour, st)
    end.

(** *** Calls in sequence and what a context is expected to hold *)

(** The calls of the threads named in [names], issued one after the
    other in the parallel build. *)
Fixpoint calls {K} (ndebug : bool) (names : list string) (st : state K) : state K :=
  match names with
  | [] => st
  | threadName :: rest =>
      calls ndebug rest (snd (get_bootstrap_key true ndebug threadName st))
  end.

(** A pointer designating a key object that is alive. *)
Definition live {K} (st : state K) (p : pointer) : bool :=
  match p with
  | nullptr => false
  | address l => bool_decide (is_Some (keys st !! l))
  end.

(** The context holds the base key, and every entry of its key map
    designates a live key. *)
Definition well_formed {K} (st : state K) : bool :=
  bool_decide (is_Some (bsk (context st) !! BASE_CONTEXT_BSK)) &&
  forallb (fun entry => live st entry.2) (map_to_list (bsk (context st))).

(** The contents of the key designated by [p], if any. *)
Definition contents {K} (st : state K) (p : pointer) : option K :=
  match p with
  | nullptr => None
  | address l => keys st !! l
  end.

End Runtime.

(** ** Library compilation ([concretelang/Support/LibrarySupport.h]) *)
Module Support.

(** [llvm::Expected<T>]: a value or an error carrying its message. *)
Inductive Expected (A : Type) :=
| Success (a : A)
| Failure (message : string).
Arguments Success {A} _.
Arguments Failure {A} _.

(** [CompilationOptions], as far as [compile] reads it. *)
Record CompilationOptions := {
  clientParametersFuncName : option string
}.

(** Lines 25-30. *)
Record LibraryCompilationResult := {
  libraryPath : string;
  funcName : string
}.

(** The private members of [LibrarySupport] (lines 100-102). *)
Record LibrarySupport := {
  outputPath : string;
  runtimeLibraryPath : string
}.

Definition missing_funcname : string :=
  "Need to have a funcname to compile library".

Section Compile.

(** The program text, the in-memory library and the artifacts on
    disk are opaque here. *)
Variables SourceMgr Library Artifact : Type.

(** [CompilerEngine::compile(program, outputPath, runtimeLibraryPath)]
    with the options set beforehand: it is declared elsewhere, and
    enters as a parameter acting on the artifacts stored by path. *)
Variable engine_compile :
  CompilationOptions -> SourceMgr -> string -> string ->
  gmap string Artifact -> Expected Library * gmap string Artifact.

(** Lines 39-60. *)
Definition compile (self : LibrarySupport) (program : SourceMgr)
    (options : CompilationOptions) (disk : gmap string Artifact)
  : Expected LibraryCompilationResult * gmap string Artifact :=
  let '(library, disk') :=
    engine_compile options program (outputPath self) (runtimeLibraryPath self) disk in
  match library with
  | Failure err => (Failure err, disk')
  | Success _ =>
      match clientParametersFuncName options with
      | None => (Failure missing_funcname, disk')
      | Some name =>
          (Success {| libraryPath := outputPath self; funcName := name |}, disk')
      end
  end.

End Compile.

(** *** Loading what a compilation produced (lines 63-98) *)

(** The [outcome] values of the client and server libraries: a value,
    or an error with its [mesg]. *)
Inductive Outcome (A : Type) :=
| Value (a : A)
| Error (mesg : string).
Arguments Value {A} _.
Arguments Error {A} _.

Section Load.

(** Server lambdas, client parameters, public arguments and results are
    declared elsewhere; of the client parameters only the member
    [functionName] is read here. *)
Variables ServerLambda ClientParameters PublicArguments PublicResult Artifact : Type.
Variable functionName : ClientParameters -> string.

(** [serverlib::ServerLambda::load(funcName, outputPath)],
    [ClientParameters::getClientParametersPath(path)],
    [ClientParameters::load(path)] and [ServerLambda::call(args)]:
    declared elsewhere, they enter as parameters; the two loaders read
    the artifacts stored by path. *)
Variable ServerLambda_load :
  string -> string -> gmap string Artifact -> Outcome ServerLambda.
Variable getClientParametersPath : string -> string.
Variable ClientParameters_load :
  string -> gmap string Artifact -> Outcome (list ClientParameters).
Variable ServerLambda_call :
  ServerLambda -> PublicArguments -> Expected PublicResult.

(** Lines 63-72. *)
Definition loadServerLambda (result : LibraryCompilationResult)
    (disk : gmap string Artifact) : Expected ServerLambda :=
  match ServerLambda_load (funcName result) (libraryPath result) disk with
  | Error mesg => Failure mesg
  | Value lambda => Success lambda
  end.

(** The message streamed at lines 86-88. *)
Definition cannot_find_function (name path : string) : string :=
  "ClientLambda: cannot find function(" +:+ name +:+
  ") in client parameters path(" +:+ path +:+ ")".

(** Lines 74-91; [llvm::find_if] is [List.find]. *)
Definition loadClientParameters (result : LibraryCompilationResult)
    (disk : gmap string Artifact) : Expected ClientParameters :=
  let path := getClientParametersPath (libraryPath result) in
  match ClientParameters_load path disk with
  | Error mesg => Failure mesg
  | Value params =>
      match find (fun param => String.eqb (functionName param) (funcName result)) params with
      | None => Failure (cannot_find_function (funcName result) path)
      | Some param => Success param
      end
  end.

(** Lines 93-98. *)
Definition serverCall (lambda : ServerLambda) (args : PublicArguments)
  : Expected PublicResult :=
  ServerLambda_call lambda args.

End Load.

End Support.

(** ** A concrete scenario

    The first parameter set of [pbs_params_u64] (the concrete scenario
    of the spec), with keys, plaintexts and input ciphertexts written
    out, and a stand-in for the device kernels; used to run the
    definitions above on actual data. *)
Module Scenario.

Definition scenario_params : Harness.BootstrapTestParams :=
  Harness.mk_params 567 5 256 15 1 2 1 5 2 5.

(** Fifty plaintexts, alternately the messages [0] and [1] scaled by
    [delta = 2^62]. *)
Definition scenario_plaintexts : list Z :=
  map (fun i => (Z.of_nat i mod 2) * 2 ^ 62) (seq 0 50).

(** Input ciphertexts with a zero mask and the body three above the
    plaintext. *)
Definition scenario_inputs : list Z :=
  flat_map (fun pt => repeat 0 567%nat ++ [U64.add pt 3]) scenario_plaintexts.

Definition scenario : Harness.Fixture unit :=
  {| Harness.params := scenario_params;
     Harness.stream := 1;
     Harness.payload_modulus := 2;
     Harness.delta := 2 ^ 62;
     Harness.lwe_sk_in_array := repeat 1 (2 * 567)%nat;
     Harness.lwe_sk_out_array := repeat 1 (2 * 5 * 256)%nat;
     Harness.plaintexts := scenario_plaintexts;
     Harness.d_fourier_bsk_array := [];
     Harness.d_lut_pbs_identity := [];
     Harness.d_lut_pbs_indexes := [];
     Harness.d_lwe_ct_in_array := scenario_inputs |}.

(** A stand-in kernel: output [j] has a zero mask and the body of input
    [j] moved by [err]. *)
Definition stand_in_kernel (err : Z) : Harness.kernel unit :=
  fun _ _ lwe_ct_in _ lwe_dim glwe_dim poly_size _ _ inputs _ _ _ =>
    flat_map
      (fun j =>
         repeat 0 (Z.to_nat (glwe_dim * poly_size)) ++
         [U64.add (nth (Z.to_nat (Z.of_nat j * (lwe_dim + 1) + lwe_dim)) lwe_ct_in 0) err])
      (seq 0 (Z.to_nat inputs)).

(** The multiprocessor count of the device assumed in the scenario. *)
Definition scenario_number_of_sm : Z := 108.

(** A context holding the base bootstrap key only, as before any worker
    has asked for its key. *)
Definition scenario_base_key : list Z := [7; 8; 9].

Definition scenario_state : Runtime.state (list Z) :=
  {| Runtime.keys := {[ 1%positive := scenario_base_key ]};
     Runtime.context :=
       {| Runtime.ksk := Runtime.address 2;
          Runtime.bsk := {[ Runtime.BASE_CONTEXT_BSK := Runtime.address 1 ]} |} |}.

Definition scenario_thread : string := "worker-thread#0".

(** A stand-in compiler engine that always succeeds and stores the
    library under the output path. *)
Definition stand_in_engine
  : Support.CompilationOptions -> string -> string -> string ->
    gmap string string -> Support.Expected unit * gmap string string :=
  fun _ program output _ disk => (Support.Success tt, <[output := program]> disk).

Definition scenario_support : Support.LibrarySupport :=
  {| Support.outputPath := "out/libfhe"; Support.runtimeLibraryPath := "" |}.

Definition scenario_options_without_name : Support.CompilationOptions :=
  {| Support.clientParametersFuncName := None |}.

Definition scenario_options_with_name : Support.CompilationOptions :=
  {| Support.clientParametersFuncName := Some "main" |}.

(** Stand-ins for the loaders: a server lambda is found when the
    library is on disk, and the client parameters stored beside it list
    three functions, one name twice. *)
Definition stand_in_server_load
  : string -> string -> gmap string string -> Support.Outcome string :=
  fun name path disk =>
    match disk !! path with
    | Some _ => Support.Value (name +:+ "@" +:+ path)
    | None => Support.Error "cannot open the library"
    end.

Definition stand_in_parameters_path (path : string) : string :=
  path +:+ ".params".

Definition stand_in_parameters_load
  : string -> gmap string string -> Support.Outcome (list (string * nat)) :=
  fun _ _ => Support.Value [("helper", 1%nat); ("main", 2%nat); ("main", 3%nat)].

(** *** A small round trip

    Two repetitions of two samples of two inputs, with keys, masks and
    noises written out, and a reference kernel that does what a
    bootstrap with the identity LUT is for: it recovers the message of
    each input with the input key (kept, for this stand-in, at the head
    of the bootstrap key), and issues a fresh ciphertext of it. *)











(** *** A payload modulus that is no power of two

    One input with [message_modulus = 3]: the message [1], scaled by
    [delta = 2^64 / 6], comes back from the stand-in kernel two below
    its exact value. *)




End Scenario.


(** * Part II: the properties *)

(** ** Arithmetic on 64-bit scalars *)

Lemma u64_modulus_pos : 0 < U64.modulus.
Proof. reflexivity. Qed.

Lemma u64_wrap_range z : U64.in_range (U64.wrap z).
Proof. unfold U64.in_range, U64.wrap. apply Z.mod_pos_bound, u64_modulus_pos. Qed.

Lemma u64_wrap_small z : U64.in_range z -> U64.wrap z = z.
Proof. unfold U64.in_range, U64.wrap. intros H. now apply Z.mod_small. Qed.

Lemma u64_wrap_plus_modulus z : U64.wrap (z + U64.modulus) = U64.wrap z.
Proof.
  unfold U64.wrap. replace (z + U64.modulus) with (z + 1 * U64.modulus) by ring.
  apply Z.mod_add. discriminate.
Qed.

Lemma u64_wrap_idem z : U64.wrap (U64.wrap z) = U64.wrap z.
Proof. apply u64_wrap_small, u64_wrap_range. Qed.

(** A scalar is its reference value plus the signed distance to it. *)
Lemma u64_signed_distance (d p : Z) :
  U64.in_range d ->
  U64.wrap (p + U64.signed (U64.sub d p)) = d.
Proof.
  intros Hd. unfold U64.signed, U64.sub. rewrite u64_wrap_idem.
  assert (Hw : U64.wrap (p + U64.wrap (d - p)) = d).
  { unfold U64.wrap. rewrite Zplus_mod_idemp_r.
    replace (p + (d - p)) with d by ring. now apply Z.mod_small. }
  destruct (U64.wrap (d - p) <? 2 ^ 63); [exact Hw|].
  replace (p + (U64.wrap (d - p) - U64.modulus))
    with (p + U64.wrap (d - p) + (-1) * U64.modulus) by ring.
  unfold U64.wrap at 1. rewrite Z.mod_add by discriminate. exact Hw.
Qed.

(** ** Bit-level facts used by the decoder *)

(** Masking with a single bit keeps that bit or nothing. *)
Lemma land_pow2 (d j : Z) :
  0 <= j ->
  Z.land d (2 ^ j) = if Z.testbit d j then 2 ^ j else 0.
Proof.
  intros Hj. apply Z.bits_inj'. intros n Hn.
  rewrite Z.land_spec, Z.pow2_bits_eqb by lia.
  destruct (Z.eqb_spec j n) as [->|Hne].
  - destruct (Z.testbit d n) eqn:E; simpl.
    + now rewrite Z.pow2_bits_true.
    + now rewrite Z.bits_0.
  - rewrite andb_false_r.
    destruct (Z.testbit d j).
    + rewrite Z.pow2_bits_false; auto.
    + now rewrite Z.bits_0.
Qed.

(** The bit at position [j] of [q * 2^(j+1) + r] is decided by the low
    part [r] alone. *)
Lemma testbit_high_low (q r j : Z) :
  0 <= j -> 0 <= r < 2 ^ (j + 1) ->
  Z.testbit (q * 2 ^ (j + 1) + r) j = (2 ^ j <=? r).
Proof.
  intros Hj Hr. apply Z.b2z_inj.
  rewrite Z.testbit_spec' by lia.
  rewrite Z.pow_add_r in * by lia. change (2 ^ 1) with 2 in *.
  assert (Hp : 0 < 2 ^ j) by (apply Z.pow_pos_nonneg; lia).
  destruct (Z.leb_spec (2 ^ j) r) as [Hge|Hlt].
  - replace (q * (2 ^ j * 2) + r) with ((r - 2 ^ j) + (2 * q + 1) * 2 ^ j) by ring.
    rewrite Z.div_add by lia.
    rewrite (Z.div_small (r - 2 ^ j)) by lia.
    replace (0 + (2 * q + 1)) with (1 + q * 2) by ring.
    rewrite Z.mod_add by lia. reflexivity.
  - replace (q * (2 ^ j * 2) + r) with (r + (2 * q) * 2 ^ j) by ring.
    rewrite Z.div_add by lia.
    rewrite (Z.div_small r) by lia.
    replace (0 + 2 * q) with (0 + q * 2) by ring.
    rewrite Z.mod_add by lia. reflexivity.
Qed.

(** ** The decoder rounds to the nearest message *)

Lemma rounding_bit_pow2 k : 1 <= k -> Harness.rounding_bit (2 ^ k) = 2 ^ (k - 1).
Proof.
  intros Hk. unfold Harness.rounding_bit, U64.shr.
  rewrite Z.shiftr_div_pow2 by lia. change (2 ^ 1) with 2.
  replace k with ((k - 1) + 1) at 1 by ring.
  rewrite Z.pow_add_r by lia. change (2 ^ 1) with 2.
  apply Z.div_mul. discriminate.
Qed.

(** The rounding term is [delta] when the bit below the message is set
    and [0] otherwise. *)
Lemma rounding_pow2 d k :
  1 <= k < 64 ->
  Harness.rounding d (2 ^ k) = if Z.testbit d (k - 1) then 2 ^ k else 0.
Proof.
  intros Hk. unfold Harness.rounding, U64.and. rewrite rounding_bit_pow2 by lia.
  rewrite land_pow2 by lia.
  destruct (Z.testbit d (k - 1)); unfold U64.shl.
  - rewrite Z.shiftl_mul_pow2 by lia. change (2 ^ 1) with 2.
    replace (2 ^ (k - 1) * 2) with (2 ^ k).
    + apply u64_wrap_small. unfold U64.in_range, U64.modulus.
      split; [apply Z.pow_nonneg; lia | apply Z.pow_lt_mono_r; lia].
    + replace k with ((k - 1) + 1) at 1 by ring.
      rewrite Z.pow_add_r by lia. reflexivity.
  - reflexivity.
Qed.

Lemma modulus_split k : 0 <= k <= 64 -> U64.modulus = 2 ^ (64 - k) * 2 ^ k.
Proof.
  intros Hk. unfold U64.modulus. rewrite <- Z.pow_add_r by lia.
  f_equal. lia.
Qed.

(** Round-to-nearest on the wrapped scalar: a message [m] scaled by
    [2^k] and perturbed by a noise [e] with [-2^k <= 2e < 2^k] (taken
    modulo [2^64], as decryption produces it) decodes to [m]. *)
Lemma decoded_noisy (k m e : Z) :
  0 <= k < 64 -> 0 <= m -> m * 2 ^ k < U64.modulus ->
  - 2 ^ k <= 2 * e < 2 ^ k ->
  Harness.decoded (U64.wrap (m * 2 ^ k + e)) (2 ^ k) = m.
Proof.
  intros Hk Hm Hp He.
  assert (Hd : 0 < 2 ^ k) by (apply Z.pow_pos_nonneg; lia).
  pose proof (modulus_split k ltac:(lia)) as HM.
  assert (Hq : 0 < 2 ^ (64 - k)) by (apply Z.pow_pos_nonneg; lia).
  assert (Hm1 : (m + 1) * 2 ^ k <= U64.modulus).
  { rewrite HM in Hp |- *. apply Z.mul_lt_mono_pos_r in Hp; [|exact Hd].
    apply Z.mul_le_mono_nonneg_r; lia. }
  destruct (Z.eq_dec k 0) as [->|Hk0].
  { change (2 ^ 0) with 1 in *. assert (e = 0) by lia. subst e.
    unfold Harness.decoded, Harness.rounding, Harness.rounding_bit,
      U64.and, U64.shr, U64.shl, U64.add, U64.div.
    change (Z.shiftr 1 1) with 0. rewrite Z.land_0_r.
    change (U64.wrap (Z.shiftl 0 1)) with 0.
    rewrite Z.add_0_r, Z.div_1_r.
    replace (m * 1 + 0) with m by ring.
    rewrite (u64_wrap_small m) by (unfold U64.in_range; lia).
    apply u64_wrap_small. unfold U64.in_range; lia. }
  assert (Hj : 2 ^ k = 2 ^ (k - 1) * 2).
  { replace k with ((k - 1) + 1) at 1 by ring.
    rewrite Z.pow_add_r by lia. reflexivity. }
  assert (Hh : 0 < 2 ^ (k - 1)) by (apply Z.pow_pos_nonneg; lia).
  unfold Harness.decoded. rewrite rounding_pow2 by lia.
  destruct (Z_lt_le_dec e 0) as [Hneg|Hpos].
  - (* negative noise: the bit below the message is set *)
    set (q := if Z.eq_dec m 0 then 2 ^ (64 - k) - 1 else m - 1).
    assert (Hw : U64.wrap (m * 2 ^ k + e) = q * 2 ^ k + (2 ^ k + e)).
    { subst q. destruct (Z.eq_dec m 0) as [->|Hm0].
      - rewrite <- u64_wrap_plus_modulus.
        rewrite u64_wrap_small; unfold U64.in_range; nia.
      - rewrite u64_wrap_small; unfold U64.in_range; nia. }
    rewrite Hw.
    replace (q * 2 ^ k) with (q * 2 ^ ((k - 1) + 1))
      by (f_equal; f_equal; lia).
    rewrite testbit_high_low by (rewrite ?Z.sub_add; lia).
    replace (2 ^ (k - 1) <=? 2 ^ k + e) with true
      by (symmetry; apply Z.leb_le; lia).
    rewrite Z.sub_add. unfold U64.add, U64.div. subst q.
    destruct (Z.eq_dec m 0) as [->|Hm0].
    + replace ((2 ^ (64 - k) - 1) * 2 ^ k + (2 ^ k + e) + 2 ^ k)
        with ((2 ^ k + e) + U64.modulus) by lia.
      rewrite u64_wrap_plus_modulus.
      rewrite u64_wrap_small by (unfold U64.in_range; lia).
      apply Z.div_small. lia.
    + rewrite u64_wrap_small by (unfold U64.in_range; nia).
      replace ((m - 1) * 2 ^ k + (2 ^ k + e) + 2 ^ k)
        with ((2 ^ k + e) + m * 2 ^ k) by ring.
      rewrite Z.div_add by lia. rewrite Z.div_small by lia. lia.
  - (* non-negative noise: the bit is clear, nothing is added *)
    rewrite (u64_wrap_small (m * 2 ^ k + e)) by (unfold U64.in_range; nia).
    replace (m * 2 ^ k) with (m * 2 ^ ((k - 1) + 1))
      by (f_equal; f_equal; lia).
    rewrite testbit_high_low by (rewrite ?Z.sub_add; lia).
    replace (2 ^ (k - 1) <=? e) with false
      by (symmetry; apply Z.leb_gt; lia).
    rewrite Z.sub_add. unfold U64.add, U64.div.
    rewrite Z.add_0_r.
    rewrite u64_wrap_small by (unfold U64.in_range; nia).
    rewrite Z.add_comm, Z.div_add by lia.
    rewrite Z.div_small by lia. lia.
Qed.

(** Closes the side conditions of a statement on concrete numbers. *)
Ltac by_computation :=
  vm_compute; repeat split; first [reflexivity | discriminate | congruence].

(** C2.  The decode step is exact round-to-nearest under bounded noise:
    for a power-of-two scaling factor [delta = 2^k] that fits 64 bits, a
    message multiple [p = m * delta < 2^64] and an integer noise [e]
    with [-delta/2 <= e < delta/2] (written [-delta <= 2e < delta], so
    that no half is rounded away) and [p + e] in [[0, 2^64)], the
    harness's [decoded] on [decrypted = p + e] is [m], which is
    [p / delta]. *)
Theorem decode_round_to_nearest (k m e : Z) :
  0 <= k < 64 -> 0 <= m -> m * 2 ^ k < 2 ^ 64 ->
  - 2 ^ k <= 2 * e < 2 ^ k ->
  0 <= m * 2 ^ k + e < 2 ^ 64 ->
  Harness.decoded (m * 2 ^ k + e) (2 ^ k) = m /\
  U64.div (m * 2 ^ k) (2 ^ k) = m.
Proof.
  intros Hk Hm Hp He Hr. split.
  - rewrite <- (u64_wrap_small (m * 2 ^ k + e)) by exact Hr.
    now apply decoded_noisy.
  - unfold U64.div. apply Z.div_mul.
    apply Z.neq_sym, Z.lt_neq, Z.pow_pos_nonneg; lia.
Qed.

Lemma decode_round_to_nearest_witness :
  Harness.decoded (1 * 2 ^ 62 + (-5)) (2 ^ 62) = 1 /\
  U64.div (1 * 2 ^ 62) (2 ^ 62) = 1.
Proof. apply (decode_round_to_nearest 62 1 (-5)); by_computation. Defined.

(** ** The loop nest of the tests *)

Lemma in_for_loop (e : Harness.event) (n : Z) (body : Z -> list Harness.event) :
  In e (Harness.for_loop n body) <-> exists i, 0 <= i < n /\ In e (body i).
Proof.
  unfold Harness.for_loop. rewrite in_flat_map. split.
  - intros (i & Hi & He). apply in_map_iff in Hi as (i' & <- & Hi').
    apply in_seq in Hi'. exists (Z.of_nat i'). split; [lia|exact He].
  - intros (i & Hi & He). exists i. split; [|exact He].
    apply in_map_iff. exists (Z.to_nat i). split; [lia|].
    apply in_seq. lia.
Qed.

(** ** The [int] expressions of the loop nest *)

Lemma int_check_some (z c : Z) :
  Int.check z = Some c -> c = z /\ Int.min <= c <= Int.max.
Proof.
  unfold Int.check, Int.fits.
  destruct (Z.leb_spec Int.min z), (Z.leb_spec z Int.max); simpl;
    intros Heq; try discriminate.
  injection Heq as <-. lia.
Qed.

Lemma int_mul_some (a b c : Z) :
  Int.mul a b = Some c -> c = a * b /\ Int.min <= c <= Int.max.
Proof. apply int_check_some. Qed.

Lemma int_add_some (a b c : Z) :
  Int.add a b = Some c -> c = a + b /\ Int.min <= c <= Int.max.
Proof. apply int_check_some. Qed.

(** Where the size of the copy is defined, so are the two products it
    is made of, and all three are the products on the integers. *)
Lemma copy_back_count_some (p : Harness.BootstrapTestParams) (c : Z) :
  Harness.copy_back_count p = Some c ->
  Harness.glwe_size p = Some (Harness.glwe_dimension p * Harness.polynomial_size p) /\
  Harness.output_size p
  = Some (Harness.glwe_dimension p * Harness.polynomial_size p + 1) /\
  c = (Harness.glwe_dimension p * Harness.polynomial_size p + 1)
      * Harness.number_of_inputs p /\
  Int.min <= c <= Int.max.
Proof.
  unfold Harness.copy_back_count, Harness.output_size, Harness.glwe_size.
  destruct (Int.mul _ _) as [g|] eqn:Hg; simpl; [|discriminate].
  destruct (Int.add g 1) as [o|] eqn:Ho; simpl; [|discriminate].
  intros Hc.
  apply int_mul_some in Hg as [-> _]. apply int_add_some in Ho as [-> _].
  apply int_mul_some in Hc as [-> Hc]. auto.
Qed.

(** The number of scalars copied back is the [int] product, whenever
    that product is defined and not negative. *)
Lemma copied_scalars (c : Z) :
  0 <= c <= Int.max ->
  U64.mul (U64.wrap c) Harness.sizeof_uint64_t / Harness.sizeof_uint64_t = c.
Proof.
  intros Hc. unfold Int.max in Hc.
  assert (H31 : 2 ^ 31 = 2147483648) by reflexivity.
  assert (H64 : U64.modulus = 18446744073709551616) by reflexivity.
  unfold U64.mul, U64.wrap, Harness.sizeof_uint64_t.
  rewrite (Z.mod_small c) by lia. rewrite Z.mod_small by lia.
  apply Z.div_mul. discriminate.
Qed.

(** ** Encryption and decryption *)








Section RoundTrip.

Variable double : Type.
Variables amortized low_latency : Harness.kernel double.
Variable max_shared_memory : Z.
Variable fx : Harness.Fixture double.

Let p := Harness.params double fx.
Let delta := Harness.delta double fx.
Let plaintext := Harness.plaintext double fx.
Let decrypted := Harness.decrypted double amortized low_latency max_shared_memory fx.
Let run_pbs := Harness.run_pbs double amortized low_latency max_shared_memory fx.


(** The loop nest never emits a skip. *)
Lemma no_skip_in_run_pbs (v : Harness.variant) (message : string) :
  ~ In (Harness.Skip message) (run_pbs v).
Proof.
  unfold run_pbs, Harness.run_pbs. intros Hin.
  apply in_for_loop in Hin as (r & _ & Hin).
  apply in_for_loop in Hin as (s & _ & Hin).
  unfold Harness.run_sample in Hin.
  destruct Hin as [Hin|[Hin|Hin]]; try discriminate.
  apply in_for_loop in Hin as (j & _ & Hin).
  unfold Harness.check_output in Hin. simpl in Hin.
  intuition discriminate.
Qed.





End RoundTrip.

(** ** The reference kernel of the small round trip *)






(** Every parameter set the tests are instantiated with has a
    power-of-two payload modulus. *)
Lemma pbs_params_payload_pow2 :
  Forall (fun p => exists a, 0 <= a <= 63 /\
                     Harness.message_modulus p * Harness.carry_modulus p = 2 ^ a)
    Harness.pbs_params_u64.
Proof.
  unfold Harness.pbs_params_u64.
  repeat (constructor; [first [exists 1; by_computation | exists 2; by_computation]|]).
  constructor.
Qed.

(** Hence, after a setup as the spec describes it, the payload modulus
    of the fixture is a power of two for each of them. *)
Lemma pbs_params_fixture_pow2 (double : Type) (fx : Harness.Fixture double) :
  In (Harness.params double fx) Harness.pbs_params_u64 ->
  Harness.setup_ok double fx = true ->
  exists a, 0 <= a <= 63 /\ Harness.payload_modulus double fx = 2 ^ a.
Proof.
  intros Hin Hok.
  pose proof pbs_params_payload_pow2 as Hall.
  rewrite Forall_forall in Hall. apply list_elem_of_In in Hin.
  destruct (Hall _ Hin) as (a & Ha & Hpow).
  exists a. split; [exact Ha|].
  unfold Harness.setup_ok in Hok.
  apply andb_prop in Hok as [Hok _]. apply andb_prop in Hok as [Hpay _].
  apply Z.eqb_eq in Hpay. congruence.
Qed.

(** The power of two matters to the decoder: with a payload modulus of
    [3] the scaling factor [2^64 / 6] has several bits set below the
    message, and a noise of [-2] already moves the message [1] to [0]. *)
Remark decoded_other_payload_modulus :
  let delta := 2 ^ 64 / (3 * 1 * 2) in
  - delta <= 2 * (-2) < delta /\
  Harness.decoded (1 * delta + (-2)) delta = 0.
Proof. by_computation. Qed.

(** ** The low-latency guard *)

Lemma int_check_fits z : Int.min <= z <= Int.max -> Int.check z = Some z.
Proof.
  intros [Hlo Hhi]. unfold Int.check, Int.fits.
  apply Z.leb_le in Hlo, Hhi. now rewrite Hlo, Hhi.
Qed.

Lemma int_div_nonneg a b :
  0 <= a <= Int.max -> 0 < b -> Int.div a b = Some (a / b).
Proof.
  intros Ha Hb. unfold Int.div.
  destruct (Z.eqb_spec b 0) as [->|_]; [lia|].
  rewrite Z.quot_div_nonneg by lia.
  apply int_check_fits.
  assert (0 <= a / b) by (apply Z.div_pos; lia).
  assert (a / b <= a) by (apply Z.div_le_upper_bound; nia).
  unfold Int.min. lia.
Qed.

(** On positive operands that do not overflow, the guard's two
    successive divisions compute the single division of the spec. *)
Lemma low_latency_limit_spec (number_of_sm glwe_dim level : Z) :
  0 < number_of_sm -> number_of_sm * 4 <= Int.max ->
  0 < glwe_dim < Int.max -> 0 < level ->
  Harness.low_latency_limit number_of_sm glwe_dim level
  = Some (Harness.spec_limit number_of_sm glwe_dim level).
Proof.
  intros Hsm Hmul Hk Hl. unfold Harness.low_latency_limit, Harness.spec_limit.
  unfold Int.mul, Int.add.
  rewrite (int_check_fits (number_of_sm * 4)) by (unfold Int.min; lia). simpl.
  rewrite (int_check_fits (glwe_dim + 1)) by (unfold Int.min; lia). simpl.
  rewrite int_div_nonneg by lia. simpl.
  assert (0 <= number_of_sm * 4 / (glwe_dim + 1)) by (apply Z.div_pos; lia).
  assert (number_of_sm * 4 / (glwe_dim + 1) <= number_of_sm * 4)
    by (apply Z.div_le_upper_bound; nia).
  rewrite int_div_nonneg by lia.
  f_equal. apply Z.div_div; lia.
Qed.

(** C3.  The low-latency test rejects oversubscribed configurations up
    front.  For positive [int] parameters on which the guard's
    arithmetic is defined (no signed overflow in [number_of_sm * 4] or
    [glwe_dimension + 1]), the sequential guard
    [number_of_sm * 4 / (glwe_dimension + 1) / pbs_level] is the bound
    [(number_of_sm * 4) / ((glwe_dimension + 1) * pbs_level)]; and
    whenever [number_of_inputs] exceeds it, the test is skipped with the
    unsupported-configuration message and its trace holds no kernel
    launch, of either variant. *)
Theorem low_latency_rejects_oversubscription
    (double : Type) (amortized low_latency : Harness.kernel double)
    (max_shared_memory : Z) (fx : Harness.Fixture double) (number_of_sm : Z) :
  let p := Harness.params double fx in
  0 < number_of_sm -> number_of_sm * 4 <= Int.max ->
  0 < Harness.glwe_dimension p < Int.max ->
  0 < Harness.pbs_level p <= Int.max ->
  Harness.low_latency_limit number_of_sm (Harness.glwe_dimension p) (Harness.pbs_level p)
  = Some (Harness.spec_limit number_of_sm (Harness.glwe_dimension p) (Harness.pbs_level p))
  /\
  (Harness.number_of_inputs p
     > Harness.spec_limit number_of_sm (Harness.glwe_dimension p) (Harness.pbs_level p) ->
   Harness.low_latency_bootstrap double amortized low_latency max_shared_memory fx number_of_sm
   = Some [Harness.Skip Harness.skip_message]
   /\
   forall t,
     Harness.low_latency_bootstrap double amortized low_latency max_shared_memory fx
       number_of_sm = Some t ->
     existsb Harness.is_launch t = false).
Proof.
  intros p Hsm Hmul Hk Hl.
  pose proof (low_latency_limit_spec number_of_sm (Harness.glwe_dimension p)
                (Harness.pbs_level p) Hsm Hmul Hk (proj1 Hl)) as Hlim.
  split; [exact Hlim|].
  intros Hover.
  assert (Hskip : Harness.low_latency_bootstrap double amortized low_latency
                    max_shared_memory fx number_of_sm
                  = Some [Harness.Skip Harness.skip_message]).
  { unfold Harness.low_latency_bootstrap. fold p. rewrite Hlim. simpl.
    destruct (Z.ltb_spec
                (Harness.spec_limit number_of_sm (Harness.glwe_dimension p)
                   (Harness.pbs_level p))
                (Harness.number_of_inputs p)); [reflexivity|lia]. }
  split; [exact Hskip|].
  intros t Ht. rewrite Hskip in Ht. injection Ht as <-. reflexivity.
Qed.

Lemma low_latency_rejects_oversubscription_witness :
  Harness.low_latency_limit 1 5 1 = Some (Harness.spec_limit 1 5 1) /\
  Harness.low_latency_bootstrap unit (Scenario.stand_in_kernel (-5))
    (Scenario.stand_in_kernel 4) 49152 Scenario.scenario 1
  = Some [Harness.Skip Harness.skip_message] /\
  existsb Harness.is_launch [Harness.Skip Harness.skip_message] = false.
Proof.
  pose proof (low_latency_rejects_oversubscription unit (Scenario.stand_in_kernel (-5))
                (Scenario.stand_in_kernel 4) 49152 Scenario.scenario 1
                ltac:(by_computation) ltac:(by_computation) ltac:(by_computation)
                ltac:(by_computation))
    as [Hlimit Hover].
  assert (Hgt : 5 > Harness.spec_limit 1 5 1) by by_computation.
  destruct (Hover Hgt) as [Hskip Hlaunch].
  split; [exact Hlimit|]. split; [exact Hskip|].
  apply Hlaunch. exact Hskip.
Defined.

(** ** Order of launch, copy and host reads *)

Section Ordering.

Variable double : Type.
Variables amortized low_latency : Harness.kernel double.
Variable max_shared_memory : Z.
Variable fx : Harness.Fixture double.

Let check_output := Harness.check_output double amortized low_latency max_shared_memory fx.
Let run_sample := Harness.run_sample double amortized low_latency max_shared_memory fx.
Let run_pbs := Harness.run_pbs double amortized low_latency max_shared_memory fx.

(** The reads of one output are accepted after the copy of their
    iteration and leave the stage as it is. *)
Lemma follow_check_output v r s j rest :
  Harness.reads_follow_copy (Harness.Copied v (Harness.stream double fx) r s) (check_output v r s j ++ rest)
  = Harness.reads_follow_copy (Harness.Copied v (Harness.stream double fx) r s) rest.
Proof.
  unfold check_output, Harness.check_output. simpl.
  now rewrite !Z.eqb_refl.
Qed.

Lemma follow_flat_map_fixed st (body : Z -> list Harness.event) (l : list Z) rest :
  (forall i rest', Harness.reads_follow_copy st (body i ++ rest')
                   = Harness.reads_follow_copy st rest') ->
  Harness.reads_follow_copy st (flat_map body l ++ rest)
  = Harness.reads_follow_copy st rest.
Proof.
  intros Hbody. induction l as [|i l IH]; simpl; [reflexivity|].
  rewrite <- app_assoc, Hbody. exact IH.
Qed.

(** One sample: whatever came before, the launch opens the iteration,
    the copy follows it and all reads follow the copy. *)
Lemma follow_run_sample st v r s rest :
  Harness.reads_follow_copy st (run_sample v r s ++ rest)
  = Harness.reads_follow_copy (Harness.Copied v (Harness.stream double fx) r s) rest.
Proof.
  unfold run_sample, Harness.run_sample.
  assert (Hhead : forall tl,
            Harness.reads_follow_copy st
              (Harness.KernelLaunch v (Harness.stream double fx) r s ::
               Harness.MemcpyAsyncToCpu (Harness.stream double fx) r s :: tl)
            = Harness.reads_follow_copy (Harness.Copied v (Harness.stream double fx) r s) tl).
  { intros tl. destruct st; simpl; now rewrite !Z.eqb_refl. }
  rewrite <- !app_comm_cons, Hhead.
  unfold Harness.for_loop. apply follow_flat_map_fixed.
  intros i rest'. apply follow_check_output.
Qed.

Lemma follow_flat_map_some (body : Z -> list Harness.event) (l : list Z) :
  (forall i st rest, exists st',
      Harness.reads_follow_copy st (body i ++ rest)
      = Harness.reads_follow_copy st' rest) ->
  forall st rest, exists st',
    Harness.reads_follow_copy st (flat_map body l ++ rest)
    = Harness.reads_follow_copy st' rest.
Proof.
  intros Hbody. induction l as [|i l IH]; intros st rest; simpl.
  - now exists st.
  - rewrite <- app_assoc.
    destruct (Hbody i st (flat_map body l ++ rest)) as (st1 & ->).
    apply IH.
Qed.

Lemma follow_run_pbs v : Harness.reads_follow_copy Harness.Idle (run_pbs v) = true.
Proof.
  unfold run_pbs, Harness.run_pbs, Harness.for_loop at 1.
  rewrite <- (app_nil_r (flat_map _ _)).
  destruct (follow_flat_map_some
              (fun r => Harness.for_loop (Harness.samples (Harness.params double fx))
                          (Harness.run_sample double amortized low_latency
                             max_shared_memory fx v r))
              (map Z.of_nat (seq 0 (Z.to_nat (Harness.repetitions (Harness.params double fx)))))
    ) with (st := Harness.Idle) (rest := @nil Harness.event) as (st' & ->).
  - intros r st rest. unfold Harness.for_loop.
    apply follow_flat_map_some. intros s st0 rest0.
    exists (Harness.Copied v (Harness.stream double fx) r s). apply follow_run_sample.
  - reflexivity.
Qed.

Lemma no_synchronize_in_run_pbs v stream :
  ~ In (Harness.SynchronizeStream stream) (run_pbs v).
Proof.
  unfold run_pbs, Harness.run_pbs. intros Hin.
  apply in_for_loop in Hin as (r & _ & Hin).
  apply in_for_loop in Hin as (s & _ & Hin).
  unfold Harness.run_sample in Hin.
  destruct Hin as [Hin|[Hin|Hin]]; try discriminate.
  apply in_for_loop in Hin as (j & _ & Hin).
  unfold Harness.check_output in Hin. simpl in Hin.
  intuition discriminate.
Qed.

Lemma for_loop_head (n : Z) (body : Z -> list Harness.event) :
  0 < n -> exists tl, Harness.for_loop n body = body 0 ++ tl.
Proof.
  intros Hn. unfold Harness.for_loop.
  destruct (Z.to_nat n) as [|k] eqn:E; [lia|].
  simpl. eexists. reflexivity.
Qed.

(** As soon as the loop nest is entered, its first host read happens
    while the copy of the first iteration is pending. *)
Lemma first_read_unsynchronized v :
  0 < Harness.repetitions (Harness.params double fx) ->
  0 < Harness.samples (Harness.params double fx) ->
  0 < Harness.number_of_inputs (Harness.params double fx) ->
  Harness.reads_synchronized None (run_pbs v) = false.
Proof.
  intros Hr Hs Hj. unfold run_pbs, Harness.run_pbs.
  destruct (for_loop_head _
              (fun r => Harness.for_loop (Harness.samples (Harness.params double fx))
                          (Harness.run_sample double amortized low_latency
                             max_shared_memory fx v r)) Hr) as (tl1 & ->).
  destruct (for_loop_head _
              (Harness.run_sample double amortized low_latency max_shared_memory fx v 0)
              Hs) as (tl2 & ->).
  unfold Harness.run_sample.
  destruct (for_loop_head _
              (Harness.check_output double amortized low_latency max_shared_memory fx v 0 0)
              Hj) as (tl3 & ->).
  reflexivity.
Qed.

(** Within the limit the low-latency test runs the loop nest. *)
Lemma low_latency_runs (number_of_sm limit : Z) :
  Harness.low_latency_limit number_of_sm
    (Harness.glwe_dimension (Harness.params double fx))
    (Harness.pbs_level (Harness.params double fx)) = Some limit ->
  Harness.number_of_inputs (Harness.params double fx) <= limit ->
  Harness.low_latency_bootstrap double amortized low_latency max_shared_memory fx number_of_sm
  = Some (run_pbs Harness.LowLatency).
Proof.
  intros Hlim Hle. unfold Harness.low_latency_bootstrap. rewrite Hlim. simpl.
  destruct (Z.ltb_spec limit (Harness.number_of_inputs (Harness.params double fx)));
    [lia|reflexivity].
Qed.

(** C5, as the harness has it.  In either test every host read of
    [lwe_ct_out_array] comes, in program order and within the same
    iteration [(r, s)], after the call of [cuda_memcpy_async_to_cpu]
    into that buffer, which itself comes after the kernel launch of the
    iteration; and the test issues no explicit stream synchronisation
    anywhere. *)
Theorem host_reads_follow_enqueued_copy (v : Harness.variant) (number_of_sm : Z)
    (t : list Harness.event) :
  Harness.run_test double amortized low_latency max_shared_memory fx v number_of_sm
    = Some t ->
  Harness.reads_follow_copy Harness.Idle t = true /\
  forall stream, ~ In (Harness.SynchronizeStream stream) t.
Proof.
  intros Hrun.
  assert (Hpbs : forall w, Harness.reads_follow_copy Harness.Idle (run_pbs w) = true /\
                           forall stream, ~ In (Harness.SynchronizeStream stream) (run_pbs w))
    by (intros w; split; [apply follow_run_pbs | intros; apply no_synchronize_in_run_pbs]).
  destruct v; simpl in Hrun.
  - injection Hrun as <-. apply Hpbs.
  - unfold Harness.low_latency_bootstrap in Hrun.
    destruct (Harness.low_latency_limit _ _ _) as [limit|]; [|discriminate].
    simpl in Hrun. destruct (limit <? _); injection Hrun as <-.
    + split; [reflexivity|]. intros stream. simpl. intuition discriminate.
    + apply Hpbs.
Qed.

End Ordering.

Lemma host_reads_follow_enqueued_copy_witness :
  Harness.reads_follow_copy Harness.Idle
    (Harness.amortized_bootstrap unit (Scenario.stand_in_kernel (-5))
       (Scenario.stand_in_kernel 4) 49152 Scenario.scenario) = true /\
  forall stream,
    ~ In (Harness.SynchronizeStream stream)
      (Harness.amortized_bootstrap unit (Scenario.stand_in_kernel (-5))
       (Scenario.stand_in_kernel 4) 49152 Scenario.scenario).
Proof.
  apply (host_reads_follow_enqueued_copy unit (Scenario.stand_in_kernel (-5))
           (Scenario.stand_in_kernel 4) 49152 Scenario.scenario
           Harness.Amortized Scenario.scenario_number_of_sm).
  reflexivity.
Defined.

(** C5, as stated, fails on the harness: in the concrete scenario both
    tests read [lwe_ct_out_array] on the host while the copy enqueued by
    [cuda_memcpy_async_to_cpu] is still pending, no synchronisation
    having been issued in between. *)
Lemma host_reads_not_synchronized :
  Harness.reads_synchronized None
    (Harness.amortized_bootstrap unit (Scenario.stand_in_kernel (-5))
       (Scenario.stand_in_kernel 4) 49152 Scenario.scenario) = false /\
  option_map (Harness.reads_synchronized None)
    (Harness.low_latency_bootstrap unit (Scenario.stand_in_kernel (-5))
       (Scenario.stand_in_kernel 4) 49152 Scenario.scenario
       Scenario.scenario_number_of_sm) = Some false.
Proof.
  split.
  - apply first_read_unsynchronized; by_computation.
  - rewrite (low_latency_runs unit (Scenario.stand_in_kernel (-5))
               (Scenario.stand_in_kernel 4) 49152 Scenario.scenario
               Scenario.scenario_number_of_sm 72) by by_computation.
    unfold option_map.
    rewrite first_read_unsynchronized by by_computation. reflexivity.
Qed.

(** ** The bootstrap key of the runtime context *)

Section BootstrapKey.

Context {K : Type}.
Implicit Types (st : Runtime.state K) (threadName : string).

Lemma assert_and_return_address ndebug l :
  Runtime.assert_and_return ndebug (Runtime.address l) = Runtime.Returned (Runtime.address l).
Proof. reflexivity. Qed.

Lemma assert_and_return_passes ndebug p :
  p <> Runtime.nullptr \/ ndebug = true ->
  Runtime.assert_and_return ndebug p = Runtime.Returned p.
Proof.
  intros [Hp| ->]; destruct p; try reflexivity. now elim Hp.
Qed.

(** Cloning a live key allocates one fresh object with the same
    contents and touches nothing else. *)
Lemma clone_live (h : gmap positive K) (b : positive) (key : K) :
  h !! b = Some key ->
  exists c, Runtime.clone_lwe_bootstrap_key_u64 h (Runtime.address b)
            = Some (Runtime.address c, <[c := key]> h)
            /\ h !! c = None.
Proof.
  intros Hb. exists (fresh (dom h)). unfold Runtime.clone_lwe_bootstrap_key_u64.
  rewrite Hb. split; [reflexivity|].
  apply not_elem_of_dom, is_fresh.
Qed.

(** C4.  In the parallel build [get_bootstrap_key] is a memoized
    per-thread clone factory.  If the key map holds an entry for the
    calling thread's name, the map (and the whole state) is left as it
    is and the stored key is returned -- whenever the [assert] lets the
    call return, that is when the stored pointer is a key or asserts are
    compiled out.  If the name is not in the map, while the base key is
    stored under ["_concretelang_base_context_bsk"], then exactly one
    clone of the base key is created, fresh and with the contents of the
    base key, the map gains exactly the entry of that name to the clone,
    the clone is returned, and a second call from the same thread
    returns the same clone without changing the state. *)
Theorem get_bootstrap_key_memoizes (ndebug : bool) threadName st :
  (forall p, Runtime.bsk (Runtime.context st) !! threadName = Some p ->
     snd (Runtime.get_bootstrap_key true ndebug threadName st) = st /\
     (p <> Runtime.nullptr \/ ndebug = true ->
      fst (Runtime.get_bootstrap_key true ndebug threadName st) = Runtime.Returned p))
  /\
  (forall b key,
     Runtime.bsk (Runtime.context st) !! threadName = None ->
     Runtime.bsk (Runtime.context st) !! Runtime.BASE_CONTEXT_BSK
       = Some (Runtime.address b) ->
     Runtime.keys st !! b = Some key ->
     exists c st',
       Runtime.get_bootstrap_key true ndebug threadName st
         = (Runtime.Returned (Runtime.address c), st') /\
       Runtime.keys st !! c = None /\
       Runtime.keys st' = <[c := key]> (Runtime.keys st) /\
       Runtime.bsk (Runtime.context st')
         = <[threadName := Runtime.address c]> (Runtime.bsk (Runtime.context st)) /\
       Runtime.ksk (Runtime.context st') = Runtime.ksk (Runtime.context st) /\
       Runtime.get_bootstrap_key true ndebug threadName st'
         = (Runtime.Returned (Runtime.address c), st')).
Proof.
  split.
  - intros p Hp. unfold Runtime.get_bootstrap_key. rewrite Hp. simpl.
    split; [reflexivity|]. apply assert_and_return_passes.
  - intros b key Hnone Hbase Hkey.
    destruct (clone_live _ _ _ Hkey) as (c & Hclone & Hfresh).
    exists c.
    exists {| Runtime.keys := <[c := key]> (Runtime.keys st);
              Runtime.context :=
                {| Runtime.ksk := Runtime.ksk (Runtime.context st);
                   Runtime.bsk := <[threadName := Runtime.address c]>
                                    (Runtime.bsk (Runtime.context st)) |} |}.
    repeat split; try assumption.
    + unfold Runtime.get_bootstrap_key, Runtime.map_index, Runtime.map_insert.
      rewrite Hnone, Hbase, Hclone, Hnone. reflexivity.
    + unfold Runtime.get_bootstrap_key. simpl.
      rewrite lookup_insert_eq. reflexivity.
Qed.

(** C9.  In the build without parallel execution [get_bootstrap_key]
    never modifies the context; with a non-null entry under
    ["_concretelang_base_context_bsk"] it returns that entry; with no
    entry under that name the lookup yields the end iterator and the
    dereference is undefined behaviour; the assertion fires only for a
    stored null pointer. *)
Theorem get_bootstrap_key_sequential (ndebug : bool) threadName st :
  snd (Runtime.get_bootstrap_key false ndebug threadName st) = st /\
  (forall l,
     Runtime.bsk (Runtime.context st) !! Runtime.BASE_CONTEXT_BSK
       = Some (Runtime.address l) ->
     fst (Runtime.get_bootstrap_key false ndebug threadName st)
       = Runtime.Returned (Runtime.address l)) /\
  (Runtime.bsk (Runtime.context st) !! Runtime.BASE_CONTEXT_BSK = None ->
     fst (Runtime.get_bootstrap_key false ndebug threadName st)
       = Runtime.UndefinedBehaviour) /\
  (Runtime.bsk (Runtime.context st) !! Runtime.BASE_CONTEXT_BSK
     = Some Runtime.nullptr ->
     fst (Runtime.get_bootstrap_key false ndebug threadName st)
       = if ndebug then Runtime.Returned Runtime.nullptr
         else Runtime.AssertionFailed Runtime.assert_message).
Proof.
  unfold Runtime.get_bootstrap_key.
  repeat split.
  - now destruct (Runtime.bsk (Runtime.context st) !! Runtime.BASE_CONTEXT_BSK).
  - intros l ->. reflexivity.
  - intros ->. reflexivity.
  - intros ->. reflexivity.
Qed.

End BootstrapKey.

Lemma get_bootstrap_key_memoizes_witness :
  (snd (Runtime.get_bootstrap_key true false Runtime.BASE_CONTEXT_BSK Scenario.scenario_state)
     = Scenario.scenario_state /\
   fst (Runtime.get_bootstrap_key true false Runtime.BASE_CONTEXT_BSK Scenario.scenario_state)
     = Runtime.Returned (Runtime.address 1)) /\
  exists c st',
    Runtime.get_bootstrap_key true false Scenario.scenario_thread Scenario.scenario_state
      = (Runtime.Returned (Runtime.address c), st') /\
    Runtime.keys Scenario.scenario_state !! c = None /\
    Runtime.keys st' = <[c := Scenario.scenario_base_key]> (Runtime.keys Scenario.scenario_state) /\
    Runtime.bsk (Runtime.context st')
      = <[Scenario.scenario_thread := Runtime.address c]>
          (Runtime.bsk (Runtime.context Scenario.scenario_state)) /\
    Runtime.ksk (Runtime.context st') = Runtime.ksk (Runtime.context Scenario.scenario_state) /\
    Runtime.get_bootstrap_key true false Scenario.scenario_thread st'
      = (Runtime.Returned (Runtime.address c), st').
Proof.
  split.
  - destruct (get_bootstrap_key_memoizes false Runtime.BASE_CONTEXT_BSK
                Scenario.scenario_state) as [Hhit _].
    destruct (Hhit (Runtime.address 1)) as [Hst Hret]; [reflexivity|].
    split; [exact Hst|]. apply Hret. left. discriminate.
  - destruct (get_bootstrap_key_memoizes false Scenario.scenario_thread
                Scenario.scenario_state) as [_ Hmiss].
    apply (Hmiss 1%positive Scenario.scenario_base_key); reflexivity.
Defined.

Lemma get_bootstrap_key_sequential_witness :
  snd (Runtime.get_bootstrap_key false false Scenario.scenario_thread Scenario.scenario_state)
    = Scenario.scenario_state /\
  fst (Runtime.get_bootstrap_key false false Scenario.scenario_thread Scenario.scenario_state)
    = Runtime.Returned (Runtime.address 1).
Proof.
  destruct (get_bootstrap_key_sequential false Scenario.scenario_thread
              Scenario.scenario_state) as (Hst & Hret & _ & _).
  split; [exact Hst|]. apply Hret. reflexivity.
Defined.

(** ** Library compilation *)

Section LibraryCompile.

Variables SourceMgr Library Artifact : Type.
Variable engine_compile :
  Support.CompilationOptions -> SourceMgr -> string -> string ->
  gmap string Artifact -> Support.Expected Library * gmap string Artifact.

Let compile := Support.compile SourceMgr Library Artifact engine_compile.

(** C7.  [LibrarySupport::compile] returns an error value when the
    options carry no [clientParametersFuncName] -- the error of the
    engine if the compilation itself failed, the missing-function-name
    error otherwise -- and on success it returns a result whose
    [libraryPath] is the support's [outputPath] and whose [funcName] is
    the [clientParametersFuncName] of the options. *)
Theorem compile_result (self : Support.LibrarySupport) (program : SourceMgr)
    (options : Support.CompilationOptions) (disk : gmap string Artifact) :
  (Support.clientParametersFuncName options = None ->
   (exists message, fst (compile self program options disk) = Support.Failure message) /\
   (forall library disk',
      engine_compile options program (Support.outputPath self)
        (Support.runtimeLibraryPath self) disk = (Support.Success library, disk') ->
      fst (compile self program options disk)
        = Support.Failure Support.missing_funcname))
  /\
  (forall result,
     fst (compile self program options disk) = Support.Success result ->
     Support.libraryPath result = Support.outputPath self /\
     Support.clientParametersFuncName options = Some (Support.funcName result)).
Proof.
  unfold compile, Support.compile.
  destruct (engine_compile options program (Support.outputPath self)
              (Support.runtimeLibraryPath self) disk) as [[library|err] disk'].
  - split.
    + intros ->. split; [eexists; reflexivity|]. reflexivity.
    + intros result. destruct (Support.clientParametersFuncName options); simpl.
      * intros [= <-]. split; reflexivity.
      * discriminate.
  - split.
    + intros _. split; [eexists; reflexivity|]. intros ? ? [=].
    + intros result. simpl. discriminate.
Qed.

(** C10.  The function name is validated only after the engine has
    run: when the option is missing and the compilation succeeds, the
    call returns the missing-function-name error together with the
    state the engine left behind, so an artifact the engine produced at
    [outputPath] is there although the call failed, and the disk is not
    what it was before the call. *)
Theorem compile_fails_after_emitting (self : Support.LibrarySupport) (program : SourceMgr)
    (options : Support.CompilationOptions) (disk disk' : gmap string Artifact)
    (library : Library) :
  Support.clientParametersFuncName options = None ->
  engine_compile options program (Support.outputPath self)
    (Support.runtimeLibraryPath self) disk = (Support.Success library, disk') ->
  compile self program options disk = (Support.Failure Support.missing_funcname, disk') /\
  (forall artifact,
     disk !! Support.outputPath self = None ->
     disk' !! Support.outputPath self = Some artifact ->
     snd (compile self program options disk) !! Support.outputPath self = Some artifact /\
     snd (compile self program options disk) <> disk).
Proof.
  intros Hname Hengine.
  assert (Hc : compile self program options disk
               = (Support.Failure Support.missing_funcname, disk')).
  { unfold compile, Support.compile. now rewrite Hengine, Hname. }
  split; [exact Hc|].
  intros artifact Hbefore Hafter. rewrite Hc. simpl.
  split; [exact Hafter|]. intros ->. congruence.
Qed.

End LibraryCompile.

Lemma compile_result_witness :
  ((exists message,
      fst (Support.compile string unit string Scenario.stand_in_engine
             Scenario.scenario_support "module" Scenario.scenario_options_without_name ∅)
      = Support.Failure message) /\
   fst (Support.compile string unit string Scenario.stand_in_engine
          Scenario.scenario_support "module" Scenario.scenario_options_without_name ∅)
   = Support.Failure Support.missing_funcname)
  /\
  (Support.libraryPath {| Support.libraryPath := "out/libfhe"; Support.funcName := "main" |}
     = Support.outputPath Scenario.scenario_support /\
   Support.clientParametersFuncName Scenario.scenario_options_with_name = Some "main").
Proof.
  split.
  - destruct (compile_result string unit string Scenario.stand_in_engine
                Scenario.scenario_support "module"
                Scenario.scenario_options_without_name ∅) as [Hmissing _].
    destruct (Hmissing eq_refl) as [Herr Hmsg].
    split; [exact Herr|]. apply (Hmsg tt (<["out/libfhe" := "module"]> ∅)). reflexivity.
  - destruct (compile_result string unit string Scenario.stand_in_engine
                Scenario.scenario_support "module"
                Scenario.scenario_options_with_name ∅) as [_ Hok].
    apply (Hok {| Support.libraryPath := "out/libfhe"; Support.funcName := "main" |}).
    reflexivity.
Defined.

Lemma compile_fails_after_emitting_witness :
  Support.compile string unit string Scenario.stand_in_engine
    Scenario.scenario_support "module" Scenario.scenario_options_without_name ∅
  = (Support.Failure Support.missing_funcname, <["out/libfhe" := "module"]> ∅) /\
  snd (Support.compile string unit string Scenario.stand_in_engine
         Scenario.scenario_support "module" Scenario.scenario_options_without_name ∅)
    !! Support.outputPath Scenario.scenario_support = Some "module" /\
  snd (Support.compile string unit string Scenario.stand_in_engine
         Scenario.scenario_support "module" Scenario.scenario_options_without_name ∅)
    <> ∅.
Proof.
  destruct (compile_fails_after_emitting string unit string Scenario.stand_in_engine
              Scenario.scenario_support "module" Scenario.scenario_options_without_name
              ∅ (<["out/libfhe" := "module"]> ∅) tt)
    as [Hcall Hdisk]; [reflexivity|reflexivity|].
  split; [exact Hcall|].
  apply Hdisk; reflexivity.
Defined.


(** * Part III: further properties of the code *)

(** ** The decoder as a rounding function *)

(** Dividing a wrapped scalar by [2^k] keeps the quotient modulo the
    size of the message space. *)
Lemma wrap_div_pow2 (k a r : Z) :
  0 <= k <= 64 -> 0 <= r < 2 ^ k ->
  U64.wrap (a * 2 ^ k + r) / 2 ^ k = a mod 2 ^ (64 - k).
Proof.
  intros Hk Hr.
  assert (Hd : 0 < 2 ^ k) by (apply Z.pow_pos_nonneg; lia).
  assert (Hq : 0 < 2 ^ (64 - k)) by (apply Z.pow_pos_nonneg; lia).
  unfold U64.wrap. rewrite (modulus_split k Hk), (Z.mul_comm (2 ^ (64 - k))).
  rewrite Z.rem_mul_r by lia.
  replace (a * 2 ^ k + r) with (r + a * 2 ^ k) by ring.
  rewrite Z.mod_add, Z.div_add by lia.
  rewrite (Z.mod_small r), (Z.div_small r) by lia.
  replace (r + 2 ^ k * ((0 + a) mod 2 ^ (64 - k)))
    with (r + ((0 + a) mod 2 ^ (64 - k)) * 2 ^ k) by ring.
  rewrite Z.div_add by lia. rewrite (Z.div_small r) by lia. reflexivity.
Qed.

Lemma decoded_rounds (k d : Z) :
  0 <= k < 64 -> 0 <= d < 2 ^ 64 ->
  Harness.decoded d (2 ^ k) = ((d + 2 ^ k / 2) / 2 ^ k) mod 2 ^ (64 - k).
Proof.
  intros Hk Hd.
  destruct (Z.eq_dec k 0) as [->|Hk0].
  { unfold Harness.decoded, Harness.rounding, Harness.rounding_bit,
      U64.and, U64.shr, U64.shl, U64.add, U64.div.
    change (2 ^ 0) with 1. change (Z.shiftr 1 1) with 0. rewrite Z.land_0_r.
    change (U64.wrap (Z.shiftl 0 1)) with 0. change (1 / 2) with 0.
    rewrite !Z.add_0_r, !Z.div_1_r. reflexivity. }
  assert (Hp : 0 < 2 ^ k) by (apply Z.pow_pos_nonneg; lia).
  assert (Hh : 0 < 2 ^ (k - 1)) by (apply Z.pow_pos_nonneg; lia).
  assert (Hj : 2 ^ k = 2 ^ (k - 1) * 2).
  { replace k with ((k - 1) + 1) at 1 by ring.
    rewrite Z.pow_add_r by lia. reflexivity. }
  assert (Hhalf : 2 ^ k / 2 = 2 ^ (k - 1)) by (rewrite Hj; apply Z.div_mul; lia).
  pose proof (Z.div_mod d (2 ^ k) ltac:(lia)) as Hdm.
  pose proof (Z.mod_pos_bound d (2 ^ k) Hp) as Hr.
  set (q := d / 2 ^ k) in *. set (r := d mod 2 ^ k) in *.
  assert (Hd' : d = q * 2 ^ k + r) by lia.
  assert (Hbit : Z.testbit d (k - 1) = (2 ^ (k - 1) <=? r)).
  { rewrite Hd'.
    replace (q * 2 ^ k) with (q * 2 ^ ((k - 1) + 1)) by (f_equal; f_equal; lia).
    apply testbit_high_low; rewrite ?Z.sub_add; lia. }
  unfold Harness.decoded. rewrite rounding_pow2 by lia.
  rewrite Hbit, Hhalf. unfold U64.add, U64.div.
  destruct (Z.leb_spec (2 ^ (k - 1)) r) as [Hge|Hlt].
  - replace (d + 2 ^ k) with ((q + 1) * 2 ^ k + r) by lia.
    rewrite wrap_div_pow2 by lia. f_equal.
    replace (d + 2 ^ (k - 1)) with ((r + 2 ^ (k - 1) - 2 ^ k) + (q + 1) * 2 ^ k) by lia.
    rewrite Z.div_add by lia. rewrite Z.div_small by lia. reflexivity.
  - rewrite Z.add_0_r. replace d with (q * 2 ^ k + r) at 1 by lia.
    rewrite wrap_div_pow2 by lia. f_equal.
    replace (d + 2 ^ (k - 1)) with ((r + 2 ^ (k - 1)) + q * 2 ^ k) by lia.
    rewrite Z.div_add by lia. rewrite Z.div_small by lia. reflexivity.
Qed.

(** X1.  For a power-of-two [delta = 2^k] the decode step of lines
    141-144 is rounding to the nearest multiple of [delta], halves
    upwards, taken modulo the [2^(64-k)] messages that fit 64 bits:
    [decoded = ((decrypted + delta/2) / delta) mod 2^(64-k)]. *)
Theorem decoded_round_half_up (k decrypted : Z) :
  0 <= k < 64 -> 0 <= decrypted < 2 ^ 64 ->
  Harness.decoded decrypted (2 ^ k)
  = ((decrypted + 2 ^ k / 2) / 2 ^ k) mod 2 ^ (64 - k).
Proof. apply decoded_rounds. Qed.

Lemma decoded_round_half_up_witness :
  Harness.decoded (2 ^ 64 - 1) (2 ^ 62)
  = ((2 ^ 64 - 1 + 2 ^ 62 / 2) / 2 ^ 62) mod 2 ^ (64 - 62).
Proof. apply (decoded_round_half_up 62 (2 ^ 64 - 1)); by_computation. Defined.

(** X2.  The noise bound of the decoder is tight on the positive side:
    a noise of exactly [delta/2] is rounded up, so that the message [m]
    decodes to [m + 1] (to [0] from the last message) and never to [m]. *)
Theorem decoded_half_delta_rounds_up (k m : Z) :
  1 <= k < 64 -> 0 <= m -> m * 2 ^ k < 2 ^ 64 ->
  Harness.decoded (m * 2 ^ k + 2 ^ k / 2) (2 ^ k) = (m + 1) mod 2 ^ (64 - k) /\
  Harness.decoded (m * 2 ^ k + 2 ^ k / 2) (2 ^ k) <> m.
Proof.
  intros Hk Hm Hp.
  assert (Hd : 0 < 2 ^ k) by (apply Z.pow_pos_nonneg; lia).
  assert (Hh : 0 < 2 ^ (k - 1)) by (apply Z.pow_pos_nonneg; lia).
  assert (Hj : 2 ^ k = 2 ^ (k - 1) * 2).
  { replace k with ((k - 1) + 1) at 1 by ring.
    rewrite Z.pow_add_r by lia. reflexivity. }
  assert (Hhalf : 2 ^ k / 2 = 2 ^ (k - 1)) by (rewrite Hj; apply Z.div_mul; lia).
  pose proof (modulus_split k ltac:(lia)) as HM. unfold U64.modulus in HM.
  assert (Hq : 2 <= 2 ^ (64 - k)).
  { change 2 with (2 ^ 1) at 1. apply Z.pow_le_mono_r; lia. }
  assert (Hmq : m < 2 ^ (64 - k)).
  { rewrite HM in Hp. apply Z.mul_lt_mono_pos_r in Hp; lia. }
  assert (Heq : Harness.decoded (m * 2 ^ k + 2 ^ k / 2) (2 ^ k)
                = (m + 1) mod 2 ^ (64 - k)).
  { rewrite decoded_rounds by (rewrite ?Hhalf; nia). f_equal.
    rewrite Hhalf.
    replace (m * 2 ^ k + 2 ^ (k - 1) + 2 ^ (k - 1)) with (0 + (m + 1) * 2 ^ k) by lia.
    rewrite Z.div_add by lia. reflexivity. }
  split; [exact Heq|]. rewrite Heq.
  destruct (Z.eq_dec (m + 1) (2 ^ (64 - k))) as [E|E].
  - rewrite E, Z.mod_same by lia. lia.
  - rewrite Z.mod_small by lia. lia.
Qed.

Lemma decoded_half_delta_rounds_up_witness :
  Harness.decoded (1 * 2 ^ 62 + 2 ^ 62 / 2) (2 ^ 62) = (1 + 1) mod 2 ^ (64 - 62) /\
  Harness.decoded (1 * 2 ^ 62 + 2 ^ 62 / 2) (2 ^ 62) <> 1.
Proof. apply (decoded_half_delta_rounds_up 62 1); by_computation. Defined.

(** ** What the loop nest emits *)

Lemma count_app f (t1 t2 : list Harness.event) :
  Harness.count f (t1 ++ t2) = (Harness.count f t1 + Harness.count f t2)%nat.
Proof. unfold Harness.count. now rewrite List.filter_app, length_app. Qed.

Lemma count_flat_map f (body : Z -> list Harness.event) (l : list Z) (c : nat) :
  (forall i, Harness.count f (body i) = c) ->
  Harness.count f (flat_map body l) = (length l * c)%nat.
Proof.
  intros Hbody. induction l as [|i l IH]; simpl; [reflexivity|].
  now rewrite count_app, Hbody, IH.
Qed.

Lemma count_for_loop f (n : Z) (body : Z -> list Harness.event) (c : nat) :
  (forall i, Harness.count f (body i) = c) ->
  Harness.count f (Harness.for_loop n body) = (Z.to_nat n * c)%nat.
Proof.
  intros Hbody. unfold Harness.for_loop.
  rewrite (count_flat_map f body _ c Hbody).
  now rewrite length_map, length_seq.
Qed.

Section LoopNest.

Variable double : Type.
Variables amortized low_latency : Harness.kernel double.
Variable max_shared_memory : Z.
Variable fx : Harness.Fixture double.

Let p := Harness.params double fx.
Let run_pbs := Harness.run_pbs double amortized low_latency max_shared_memory fx.
Let run_test := Harness.run_test double amortized low_latency max_shared_memory fx.

(** A test that is not skipped emits the loop nest of its variant. *)
Lemma run_test_not_skipped v number_of_sm t :
  run_test v number_of_sm = Some t ->
  t <> [Harness.Skip Harness.skip_message] ->
  t = run_pbs v.
Proof.
  intros Hrun Hskip. destruct v; simpl in Hrun.
  - now injection Hrun as <-.
  - unfold Harness.low_latency_bootstrap in Hrun.
    destruct (Harness.low_latency_limit _ _ _) as [limit|]; [|discriminate].
    simpl in Hrun. destruct (limit <? _); injection Hrun as <-; [now elim Hskip|reflexivity].
Qed.

Lemma count_run_sample f v r s (a b c : nat) :
  (forall st, Harness.count f [Harness.KernelLaunch v st r s] = a) ->
  (forall st, Harness.count f [Harness.MemcpyAsyncToCpu st r s] = b) ->
  (forall j, Harness.count f
               (Harness.check_output double amortized low_latency max_shared_memory fx v r s j)
             = c) ->
  Harness.count f (Harness.run_sample double amortized low_latency max_shared_memory fx v r s)
  = (a + b + Z.to_nat (Harness.number_of_inputs p) * c)%nat.
Proof.
  intros Ha Hb Hc. unfold Harness.run_sample.
  change (Harness.KernelLaunch v (Harness.stream double fx) r s ::
          Harness.MemcpyAsyncToCpu (Harness.stream double fx) r s :: ?t)
    with ([Harness.KernelLaunch v (Harness.stream double fx) r s] ++
          [Harness.MemcpyAsyncToCpu (Harness.stream double fx) r s] ++ t).
  rewrite !count_app, Ha, Hb, (count_for_loop f _ _ c Hc). unfold p. lia.
Qed.

Lemma count_run_pbs f v (a b c : nat) :
  (forall st r s, Harness.count f [Harness.KernelLaunch v st r s] = a) ->
  (forall st r s, Harness.count f [Harness.MemcpyAsyncToCpu st r s] = b) ->
  (forall r s j, Harness.count f
               (Harness.check_output double amortized low_latency max_shared_memory fx v r s j)
             = c) ->
  Harness.count f (run_pbs v)
  = (Z.to_nat (Harness.repetitions p) *
     (Z.to_nat (Harness.samples p) *
      (a + b + Z.to_nat (Harness.number_of_inputs p) * c)))%nat.
Proof.
  intros Ha Hb Hc. unfold run_pbs, Harness.run_pbs.
  apply count_for_loop. intros r. apply count_for_loop. intros s.
  apply count_run_sample; auto.
Qed.

(** X3.  A test that is not skipped launches its kernel and copies the
    result back once per repetition and sample, and reads, compares and
    decodes one output per repetition, sample and batch index; loop
    bounds that are not positive give no iteration. *)
Theorem loop_nest_counts (v : Harness.variant) (number_of_sm : Z) (t : list Harness.event) :
  run_test v number_of_sm = Some t ->
  t <> [Harness.Skip Harness.skip_message] ->
  let iterations := (Z.to_nat (Harness.repetitions p) * Z.to_nat (Harness.samples p))%nat in
  let outputs := (iterations * Z.to_nat (Harness.number_of_inputs p))%nat in
  Harness.count Harness.is_launch t = iterations /\
  Harness.count Harness.is_host_read t = outputs /\
  Harness.count Harness.is_expect_ne t = outputs /\
  Harness.count Harness.is_expect_eq t = outputs /\
  length t = (2 * iterations + 3 * outputs)%nat.
Proof.
  intros Hrun Hskip. rewrite (run_test_not_skipped v number_of_sm t Hrun Hskip).
  cbv zeta.
  rewrite (count_run_pbs Harness.is_launch v 1 0 0) by reflexivity.
  rewrite (count_run_pbs Harness.is_host_read v 0 0 1) by reflexivity.
  rewrite (count_run_pbs Harness.is_expect_ne v 0 0 1) by reflexivity.
  rewrite (count_run_pbs Harness.is_expect_eq v 0 0 1) by reflexivity.
  assert (Hlen : length (run_pbs v) = Harness.count (fun _ => true) (run_pbs v)).
  { unfold Harness.count. induction (run_pbs v) as [|e l IH]; simpl; congruence. }
  rewrite Hlen, (count_run_pbs (fun _ => true) v 1 1 3) by reflexivity.
  repeat split; nia.
Qed.


End LoopNest.

Lemma loop_nest_counts_witness :
  Harness.count Harness.is_launch
    (Harness.amortized_bootstrap unit (Scenario.stand_in_kernel (-5))
       (Scenario.stand_in_kernel 4) 49152 Scenario.scenario) = 10%nat /\
  Harness.count Harness.is_expect_eq
    (Harness.amortized_bootstrap unit (Scenario.stand_in_kernel (-5))
       (Scenario.stand_in_kernel 4) 49152 Scenario.scenario) = 50%nat.
Proof.
  pose proof (loop_nest_counts unit (Scenario.stand_in_kernel (-5))
                (Scenario.stand_in_kernel 4) 49152 Scenario.scenario
                Harness.Amortized Scenario.scenario_number_of_sm
                (Harness.amortized_bootstrap unit (Scenario.stand_in_kernel (-5))
                   (Scenario.stand_in_kernel 4) 49152 Scenario.scenario)
                eq_refl) as Hcounts.
  destruct Hcounts as (Hlaunch & _ & _ & Heq & _).
  - intros Hskip.
    apply (no_skip_in_run_pbs unit (Scenario.stand_in_kernel (-5))
             (Scenario.stand_in_kernel 4) 49152 Scenario.scenario
             Harness.Amortized Harness.skip_message).
    unfold Harness.amortized_bootstrap in Hskip. rewrite Hskip. left. reflexivity.
  - split; [exact Hlaunch|exact Heq].
Defined.


(** ** When the low-latency test runs *)





(** X6.  The guard divides before it compares: with
    [glwe_dimension = -1] or [pbs_level = 0] the expression
    [number_of_sm * 4 / (glwe_dimension + 1) / pbs_level] divides by
    zero, and the low-latency test has no defined behaviour, whatever
    the other parameters are. *)
Theorem low_latency_guard_divides_by_zero
    (double : Type) (amortized low_latency : Harness.kernel double)
    (max_shared_memory : Z) (fx : Harness.Fixture double) (number_of_sm : Z) :
  Harness.glwe_dimension (Harness.params double fx) = -1 \/
  Harness.pbs_level (Harness.params double fx) = 0 ->
  Harness.low_latency_bootstrap double amortized low_latency max_shared_memory fx number_of_sm
  = None.
Proof.
  intros Hzero. unfold Harness.low_latency_bootstrap, Harness.low_latency_limit.
  destruct (Int.mul number_of_sm 4) as [a|]; [simpl|reflexivity].
  destruct Hzero as [-> | ->].
  - change (Int.add (-1) 1) with (Some 0). simpl.
    unfold Int.div. simpl. reflexivity.
  - destruct (Int.add _ 1) as [b|]; [simpl|reflexivity].
    destruct (Int.div a b) as [c|]; [simpl|reflexivity].
    unfold Int.div. simpl. reflexivity.
Qed.

Lemma low_latency_guard_divides_by_zero_witness :
  Harness.low_latency_bootstrap unit (Scenario.stand_in_kernel (-5))
    (Scenario.stand_in_kernel 4) 49152
    {| Harness.params := Harness.mk_params 567 5 256 15 0 2 1 5 2 5;
       Harness.stream := 1; Harness.payload_modulus := 2; Harness.delta := 2 ^ 62;
       Harness.lwe_sk_in_array := []; Harness.lwe_sk_out_array := [];
       Harness.plaintexts := []; Harness.d_fourier_bsk_array := [];
       Harness.d_lut_pbs_identity := []; Harness.d_lut_pbs_indexes := [];
       Harness.d_lwe_ct_in_array := [] |} 108
  = None.
Proof.
  apply low_latency_guard_divides_by_zero. right. reflexivity.
Defined.

(** ** Indices and buffers of the loop nest *)

Lemma mixed_radix_unique (a b a' b' n : Z) :
  0 <= b < n -> 0 <= b' < n -> a * n + b = a' * n + b' -> a = a' /\ b = b'.
Proof.
  intros Hb Hb' Heq.
  assert (a = a') by nia. subst a'. split; [reflexivity|lia].
Qed.

(** Where the [int] expressions are defined they are the expressions on
    the integers. *)
Lemma batch_index_some (p : Harness.BootstrapTestParams) (r s b : Z) :
  Harness.batch_index p r s = Some b ->
  b = r * Harness.samples p * Harness.number_of_inputs p
      + s * Harness.number_of_inputs p.
Proof.
  unfold Harness.batch_index.
  destruct (Int.mul r _) as [x|] eqn:Hx; simpl; [|discriminate].
  destruct (Int.mul x _) as [y|] eqn:Hy; simpl; [|discriminate].
  destruct (Int.mul s _) as [z|] eqn:Hz; simpl; [|discriminate].
  intros Hb.
  apply int_mul_some in Hx as [-> _]. apply int_mul_some in Hy as [-> _].
  apply int_mul_some in Hz as [-> _]. now apply int_add_some in Hb as [-> _].
Qed.

Lemma plaintext_index_some (p : Harness.BootstrapTestParams) (r s j i : Z) :
  Harness.plaintext_index p r s j = Some i ->
  i = r * Harness.samples p * Harness.number_of_inputs p
      + s * Harness.number_of_inputs p + j.
Proof.
  unfold Harness.plaintext_index.
  destruct (Harness.batch_index p r s) as [b|] eqn:Hb; simpl; [|discriminate].
  intros Hi. apply batch_index_some in Hb as ->.
  now apply int_add_some in Hi as [-> _].
Qed.

Lemma input_offset_some (p : Harness.BootstrapTestParams) (r s off : Z) :
  Harness.input_offset p r s = Some off ->
  off = (r * Harness.samples p * Harness.number_of_inputs p
         + s * Harness.number_of_inputs p) * (Harness.lwe_dimension p + 1).
Proof.
  unfold Harness.input_offset.
  destruct (Harness.batch_index p r s) as [b|] eqn:Hb; simpl; [|discriminate].
  destruct (Int.add _ 1) as [w|] eqn:Hw; simpl; [|discriminate].
  intros Hoff. apply batch_index_some in Hb as ->.
  apply int_add_some in Hw as [-> _]. now apply int_mul_some in Hoff as [-> _].
Qed.

(** X7.  Each iteration [(r, s, j)] of the loop nest compares against a
    plaintext of its own.  The index
    [r * samples * number_of_inputs + s * number_of_inputs + j] of
    lines 129-130 and 187-188 is computed on [int]: it is defined for
    every iteration as soon as
    [repetitions * samples * number_of_inputs] fits an [int], and
    wherever it is defined it is the element of [plaintexts] that is
    read, it stays below [repetitions * samples * number_of_inputs],
    and it differs for different iterations. *)
Theorem plaintext_index_injective
    (double : Type) (fx : Harness.Fixture double) (r s j r' s' j' : Z) :
  let p := Harness.params double fx in
  let total :=
    Harness.repetitions p * Harness.samples p * Harness.number_of_inputs p in
  0 <= r < Harness.repetitions p -> 0 <= s < Harness.samples p ->
  0 <= j < Harness.number_of_inputs p ->
  0 <= r' < Harness.repetitions p -> 0 <= s' < Harness.samples p ->
  0 <= j' < Harness.number_of_inputs p ->
  (total <= Int.max -> is_Some (Harness.plaintext_index p r s j)) /\
  forall i i' : Z,
    Harness.plaintext_index p r s j = Some i ->
    Harness.plaintext_index p r' s' j' = Some i' ->
    Harness.plaintext double fx r s j
    = nth (Z.to_nat i) (Harness.plaintexts double fx) 0 /\
    0 <= i < total /\
    (i = i' -> r = r' /\ s = s' /\ j = j').
Proof.
  intros p total Hr Hs Hj Hr' Hs' Hj'. subst total.
  set (R := Harness.repetitions p) in *. set (S := Harness.samples p) in *.
  set (n := Harness.number_of_inputs p) in *.
  assert (Hrs : 0 <= r * S + s < R * S) by nia.
  assert (Hlt : (r * S + s) * n + j < R * S * n) by nia.
  split.
  - intros Htotal.
    assert (Hrsn : 0 <= (r * S + s) * n) by nia.
    assert (Hx : 0 <= r * S <= Int.max) by nia.
    assert (Hy : 0 <= r * S * n <= Int.max) by nia.
    assert (Hz : 0 <= s * n <= Int.max) by nia.
    unfold Harness.plaintext_index, Harness.batch_index, Int.mul, Int.add.
    fold S n.
    rewrite (int_check_fits (r * S)) by (unfold Int.min; lia). simpl.
    rewrite (int_check_fits (r * S * n)) by (unfold Int.min; lia). simpl.
    rewrite (int_check_fits (s * n)) by (unfold Int.min; lia). simpl.
    rewrite (int_check_fits (r * S * n + s * n)) by (unfold Int.min; lia). simpl.
    rewrite int_check_fits by (unfold Int.min; lia). eauto.
  - intros i i' Hi Hi'. split.
    + unfold Harness.plaintext. fold p. now rewrite Hi.
    + apply plaintext_index_some in Hi, Hi'. fold S n in Hi, Hi'. subst i i'.
      split; [nia|].
      intros Heq.
      replace (r * S * n + s * n + j) with ((r * S + s) * n + j) in Heq by ring.
      replace (r' * S * n + s' * n + j') with ((r' * S + s') * n + j') in Heq by ring.
      apply mixed_radix_unique in Heq as [Hrs' ->]; [|lia|lia].
      apply mixed_radix_unique in Hrs' as [-> ->]; [|lia|lia].
      auto.
Qed.

Lemma plaintext_index_injective_witness :
  is_Some (Harness.plaintext_index Scenario.scenario_params 1 2 3) /\
  Harness.plaintext unit Scenario.scenario 1 2 3
  = nth (Z.to_nat 38) Scenario.scenario_plaintexts 0 /\
  0 <= 38 < 2 * 5 * 5 /\
  (38 = 38 -> 1 = 1 /\ 2 = 2 /\ 3 = 3).
Proof.
  pose proof (plaintext_index_injective unit Scenario.scenario 1 2 3 1 2 3
                ltac:(by_computation) ltac:(by_computation) ltac:(by_computation)
                ltac:(by_computation) ltac:(by_computation) ltac:(by_computation))
    as [Hdefined Hindex].
  split; [apply Hdefined; by_computation|].
  exact (Hindex 38 38 eq_refl eq_refl).
Defined.

Lemma offset_offset {A} (arr : list A) (a b : Z) :
  0 <= a -> 0 <= b ->
  Harness.offset (Harness.offset arr a) b = Harness.offset arr (a + b).
Proof.
  intros Ha Hb. unfold Harness.offset.
  destruct (Z.ltb_spec a 0), (Z.ltb_spec b 0), (Z.ltb_spec (a + b) 0); try lia.
  rewrite skipn_skipn. f_equal. lia.
Qed.

(** X8.  Inputs and expected values are indexed alike: wherever the
    [int] offset of lines 109-110 and the [int] index of lines 129-130
    are defined, ciphertext [j] of the batch handed to the kernel in
    iteration [(r, s)] is the ciphertext of [d_lwe_ct_in_array] at the
    flat index of the plaintext that output [j] is compared with. *)
Theorem input_batch_matches_plaintext_index
    (double : Type) (fx : Harness.Fixture double) (r s j off i : Z) :
  let p := Harness.params double fx in
  0 <= r -> 0 <= s -> 0 <= j ->
  0 <= Harness.samples p -> 0 <= Harness.number_of_inputs p ->
  0 <= Harness.lwe_dimension p ->
  Harness.input_offset p r s = Some off ->
  Harness.plaintext_index p r s j = Some i ->
  Harness.d_lwe_ct_in double fx r s
  = Harness.offset (Harness.d_lwe_ct_in_array double fx) off /\
  Harness.offset (Harness.d_lwe_ct_in double fx r s) (j * (Harness.lwe_dimension p + 1))
  = Harness.offset (Harness.d_lwe_ct_in_array double fx)
      (i * (Harness.lwe_dimension p + 1)).
Proof.
  intros p Hr Hs Hj HS Hn Hl Hoff Hi.
  unfold Harness.d_lwe_ct_in. fold p. rewrite Hoff. simpl Harness.offset_at.
  split; [reflexivity|].
  apply input_offset_some in Hoff as ->. apply plaintext_index_some in Hi as ->.
  rewrite offset_offset by nia.
  f_equal. ring.
Qed.

Lemma input_batch_matches_plaintext_index_witness :
  Harness.d_lwe_ct_in unit Scenario.scenario 1 2
  = Harness.offset Scenario.scenario_inputs 19880 /\
  Harness.offset (Harness.d_lwe_ct_in unit Scenario.scenario 1 2) (3 * (567 + 1))
  = Harness.offset Scenario.scenario_inputs (38 * (567 + 1)).
Proof.
  apply (input_batch_matches_plaintext_index unit Scenario.scenario 1 2 3 19880 38);
    by_computation.
Defined.

(** X9.  The host reads stay inside the buffer of [SetUp].  Whenever
    the size handed to [malloc] at lines 84-86 -- and to the copy at
    lines 120-123 -- is defined, the [int] product
    [(glwe_dimension * polynomial_size + 1) * number_of_inputs] not
    overflowing, it is that product times [sizeof(uint64_t)], and for
    every output [j] of the batch and scalar [i] of its ciphertext
    ([i <= glwe_dimension * polynomial_size], the body being the last)
    the [int] offset of lines 126-128 is defined and the eight bytes
    read lie within the bytes allocated. *)
Theorem result_reads_in_bounds
    (p : Harness.BootstrapTestParams) (j i bytes : Z) :
  let size := Harness.glwe_dimension p * Harness.polynomial_size p + 1 in
  0 <= Harness.glwe_dimension p -> 0 <= Harness.polynomial_size p ->
  0 <= j < Harness.number_of_inputs p -> 0 <= i < size ->
  Harness.lwe_ct_out_array_bytes p = Some bytes ->
  bytes = size * Harness.number_of_inputs p * Harness.sizeof_uint64_t /\
  exists b,
    Harness.result_byte_offset p j i = Some b /\
    b = (j * size + i) * Harness.sizeof_uint64_t /\
    0 <= b /\ b + Harness.sizeof_uint64_t <= bytes.
Proof.
  intros size Hk HN Hj Hi Hbytes.
  unfold Harness.lwe_ct_out_array_bytes in Hbytes.
  destruct (Harness.copy_back_count p) as [c|] eqn:Hc; simpl in Hbytes; [|discriminate].
  destruct (copy_back_count_some p c Hc) as (_ & Ho & Hceq & Hcr).
  fold size in Ho, Hceq.
  assert (Hcj : (j + 1) * size <= c) by nia.
  assert (Hbeq : bytes = c * Harness.sizeof_uint64_t).
  { injection Hbytes as <-.
    rewrite <- (copied_scalars c) at 2 by nia.
    unfold U64.mul, U64.wrap, Harness.sizeof_uint64_t.
    assert (H31 : Int.max = 2147483647) by reflexivity.
    assert (H64 : U64.modulus = 18446744073709551616) by reflexivity.
    rewrite (Z.mod_small c) by lia. rewrite (Z.mod_small (c * 8)) by lia.
    now rewrite Z.div_mul by discriminate. }
  split; [rewrite Hbeq, Hceq; reflexivity|].
  exists ((j * size + i) * Harness.sizeof_uint64_t).
  unfold Harness.result_byte_offset, Harness.result_offset.
  rewrite Ho. simpl. unfold Int.mul.
  rewrite int_check_fits by (unfold Int.min in *; nia). simpl.
  rewrite Hbeq. unfold Harness.sizeof_uint64_t. repeat split; nia.
Qed.

Lemma result_reads_in_bounds_witness :
  51240 = (5 * 256 + 1) * 5 * Harness.sizeof_uint64_t /\
  exists b,
    Harness.result_byte_offset Scenario.scenario_params 4 1280 = Some b /\
    b = (4 * (5 * 256 + 1) + 1280) * Harness.sizeof_uint64_t /\
    0 <= b /\ b + Harness.sizeof_uint64_t <= 51240.
Proof.
  apply (result_reads_in_bounds Scenario.scenario_params 4 1280 51240); by_computation.
Defined.

(** ** Test names *)

Lemma string_forall_app f (a b : string) :
  Harness.string_forall f (a +:+ b) = Harness.string_forall f a && Harness.string_forall f b.
Proof.
  induction a as [|c a IH]; simpl; [reflexivity|].
  now rewrite IH, andb_assoc.
Qed.

Lemma uint_chars (f : Ascii.ascii -> bool) (d : Decimal.uint) :
  (forall c, (48 <= Ascii.nat_of_ascii c <= 57)%nat -> f c = true) ->
  Harness.string_forall f (NilEmpty.string_of_uint d) = true.
Proof.
  intros Hf. induction d; simpl; rewrite ?IHd, ?andb_true_r; try reflexivity;
    apply Hf; split; apply Nat.leb_le; reflexivity.
Qed.

Lemma to_string_numeral z :
  Harness.string_forall Harness.numeral_char (Harness.to_string z) = true.
Proof.
  assert (Hdigit : forall c, (48 <= Ascii.nat_of_ascii c <= 57)%nat ->
                             Harness.numeral_char c = true).
  { intros c [Hlo Hhi]. unfold Harness.numeral_char.
    apply Nat.leb_le in Hlo, Hhi. now rewrite Hlo, Hhi. }
  unfold Harness.to_string. destruct (Z.to_int z) as [d|d]; simpl.
  - now apply uint_chars.
  - now apply uint_chars.
Qed.

Lemma to_string_name_chars z :
  Harness.string_forall Harness.name_char (Harness.to_string z) = (0 <=? z).
Proof.
  assert (Hdigit : forall c, (48 <= Ascii.nat_of_ascii c <= 57)%nat ->
                             Harness.name_char c = true).
  { intros c [Hlo Hhi]. unfold Harness.name_char.
    apply Nat.leb_le in Hlo, Hhi. now rewrite Hlo, Hhi. }
  unfold Harness.to_string. destruct z as [|q|q]; simpl.
  - reflexivity.
  - now apply uint_chars.
  - reflexivity.
Qed.

Lemma to_string_inj a b : Harness.to_string a = Harness.to_string b -> a = b.
Proof.
  unfold Harness.to_string. intros Heq.
  apply DecimalZ.to_int_inj.
  pose proof (NilEmpty.isi (Z.to_int a)) as Ha.
  pose proof (NilEmpty.isi (Z.to_int b)) as Hb.
  rewrite Heq in Ha. congruence.
Qed.

(** Two numerals followed by an underscore and equal as a whole are
    equal piece by piece. *)
Lemma split_at_underscore (x x' r r' : string) :
  Harness.string_forall Harness.numeral_char x = true ->
  Harness.string_forall Harness.numeral_char x' = true ->
  x +:+ String "_"%char r = x' +:+ String "_"%char r' ->
  x = x' /\ r = r'.
Proof.
  revert x'. induction x as [|c x IH]; intros x' Hx Hx' Heq.
  - destruct x' as [|c' x']; simpl in Heq.
    + now injection Heq as ->.
    + injection Heq as <- _. simpl in Hx'. discriminate.
  - destruct x' as [|c' x']; simpl in Heq.
    + injection Heq as -> _. simpl in Hx. discriminate.
    + injection Heq as -> Heq. simpl in Hx, Hx'.
      apply andb_prop in Hx as [_ Hx]. apply andb_prop in Hx' as [_ Hx'].
      destruct (IH x' Hx Hx' Heq) as [-> ->]. auto.
Qed.

Ltac peel_numeral H :=
  apply split_at_underscore in H as [?%to_string_inj H];
  [|apply to_string_numeral|apply to_string_numeral].

(** X10.  [printParamName] tells two parameter sets apart exactly when
    they differ in one of the six parameters it prints
    ([lwe_dimension], [glwe_dimension], [polynomial_size],
    [pbs_base_log], [pbs_level], [number_of_inputs]); sets that differ
    only in the variances, the moduli, [repetitions] or [samples] get
    the same test name. *)
Theorem printParamName_equal_iff (p q : Harness.BootstrapTestParams) :
  Harness.printParamName p = Harness.printParamName q <->
  Harness.lwe_dimension p = Harness.lwe_dimension q /\
  Harness.glwe_dimension p = Harness.glwe_dimension q /\
  Harness.polynomial_size p = Harness.polynomial_size q /\
  Harness.pbs_base_log p = Harness.pbs_base_log q /\
  Harness.pbs_level p = Harness.pbs_level q /\
  Harness.number_of_inputs p = Harness.number_of_inputs q.
Proof.
  unfold Harness.printParamName. split.
  - intros H. cbn [String.append] in H.
    do 5 (repeat (injection H as H); peel_numeral H).
    repeat (injection H as H). apply to_string_inj in H.
    auto 10.
  - intros (-> & -> & -> & -> & -> & ->). reflexivity.
Qed.

(** X11.  A test name is made of ASCII letters, digits and underscores
    only -- the characters a test name may hold -- exactly when none of
    the six parameters printed is negative; a negative one brings a
    minus sign into the name. *)
Theorem printParamName_characters (p : Harness.BootstrapTestParams) :
  Harness.string_forall Harness.name_char (Harness.printParamName p) = true <->
  0 <= Harness.lwe_dimension p /\ 0 <= Harness.glwe_dimension p /\
  0 <= Harness.polynomial_size p /\ 0 <= Harness.pbs_base_log p /\
  0 <= Harness.pbs_level p /\ 0 <= Harness.number_of_inputs p.
Proof.
  unfold Harness.printParamName.
  rewrite !string_forall_app, !to_string_name_chars.
  change (Harness.string_forall Harness.name_char "n_") with true.
  change (Harness.string_forall Harness.name_char "_k_") with true.
  change (Harness.string_forall Harness.name_char "_N_") with true.
  change (Harness.string_forall Harness.name_char "_pbs_base_log_") with true.
  change (Harness.string_forall Harness.name_char "_pbs_level_") with true.
  change (Harness.string_forall Harness.name_char "_number_of_inputs_") with true.
  rewrite !andb_true_l, !andb_true_iff, !Z.leb_le. tauto.
Qed.

(** ** Calls to [get_bootstrap_key] in sequence *)

Section KeyCalls.

Context {K : Type}.
Implicit Types (st : Runtime.state K) (threadName : string) (p : Runtime.pointer).

Lemma live_spec st p :
  Runtime.live st p = true <->
  exists l key, p = Runtime.address l /\ Runtime.keys st !! l = Some key.
Proof.
  unfold Runtime.live. destruct p as [|l].
  - split; [discriminate|]. intros (l & key & Hp & _). discriminate.
  - rewrite bool_decide_eq_true. split.
    + intros [key Hkey]. eauto.
    + intros (l' & key & [= <-] & Hkey). eauto.
Qed.

Lemma well_formed_spec st :
  Runtime.well_formed st = true <->
  is_Some (Runtime.bsk (Runtime.context st) !! Runtime.BASE_CONTEXT_BSK) /\
  forall name p, Runtime.bsk (Runtime.context st) !! name = Some p ->
                 Runtime.live st p = true.
Proof.
  unfold Runtime.well_formed.
  rewrite andb_true_iff, bool_decide_eq_true, forallb_forall.
  split; intros [Hbase Hall]; (split; [exact Hbase|]).
  - intros name p Hp. apply (Hall (name, p)).
    apply list_elem_of_In, elem_of_map_to_list. exact Hp.
  - intros [name p] Hin. apply list_elem_of_In, elem_of_map_to_list in Hin.
    exact (Hall name p Hin).
Qed.

(** The two ways a call can go on a well-formed context. *)
Lemma call_cases (ndebug : bool) threadName st :
  Runtime.well_formed st = true ->
  (exists c key,
     Runtime.bsk (Runtime.context st) !! threadName = Some (Runtime.address c) /\
     Runtime.keys st !! c = Some key /\
     Runtime.get_bootstrap_key true ndebug threadName st
       = (Runtime.Returned (Runtime.address c), st))
  \/
  (exists b key c,
     Runtime.bsk (Runtime.context st) !! threadName = None /\
     Runtime.bsk (Runtime.context st) !! Runtime.BASE_CONTEXT_BSK
       = Some (Runtime.address b) /\
     Runtime.keys st !! b = Some key /\
     Runtime.keys st !! c = None /\
     Runtime.get_bootstrap_key true ndebug threadName st
       = (Runtime.Returned (Runtime.address c),
          {| Runtime.keys := <[c := key]> (Runtime.keys st);
             Runtime.context :=
               {| Runtime.ksk := Runtime.ksk (Runtime.context st);
                  Runtime.bsk := <[threadName := Runtime.address c]>
                                   (Runtime.bsk (Runtime.context st)) |} |})).
Proof.
  intros Hwf. apply well_formed_spec in Hwf as [[pb Hbase] Hall].
  destruct (Runtime.bsk (Runtime.context st) !! threadName) as [p|] eqn:Hlook.
  - left. destruct (proj1 (live_spec st p) (Hall _ _ Hlook)) as (c & key & -> & Hkey).
    exists c, key. repeat split; try assumption.
    unfold Runtime.get_bootstrap_key. now rewrite Hlook.
  - right. destruct (proj1 (live_spec st pb) (Hall _ _ Hbase)) as (b & key & -> & Hkey).
    destruct (clone_live _ _ _ Hkey) as (c & Hclone & Hfresh).
    exists b, key, c. repeat split; try assumption.
    unfold Runtime.get_bootstrap_key, Runtime.map_index, Runtime.map_insert.
    rewrite Hlook, Hbase, Hclone, Hlook. reflexivity.
Qed.

(** A call keeps a well-formed context well-formed. *)
Lemma call_well_formed (ndebug : bool) threadName st :
  Runtime.well_formed st = true ->
  Runtime.well_formed (snd (Runtime.get_bootstrap_key true ndebug threadName st)) = true.
Proof.
  intros Hwf.
  destruct (call_cases ndebug threadName st Hwf)
    as [(c & key & _ & _ & ->)|(b & key & c & Hnone & Hbase & Hkey & Hfresh & ->)];
    [exact Hwf|].
  apply well_formed_spec in Hwf as [_ Hall].
  apply well_formed_spec. simpl. split.
  - destruct (decide (threadName = Runtime.BASE_CONTEXT_BSK)) as [->|Hne].
    + rewrite lookup_insert_eq. eauto.
    + rewrite lookup_insert_ne by done. eauto.
  - intros name p Hp. apply live_spec.
    destruct (decide (threadName = name)) as [->|Hne].
    + rewrite lookup_insert_eq in Hp. injection Hp as <-.
      exists c, key. split; [reflexivity|]. simpl. apply lookup_insert_eq.
    + rewrite lookup_insert_ne in Hp by done.
      destruct (proj1 (live_spec st p) (Hall _ _ Hp)) as (l & key' & -> & Hl).
      exists l, key'. split; [reflexivity|]. simpl.
      rewrite lookup_insert_ne; [exact Hl|]. intros ->. congruence.
Qed.

Lemma calls_well_formed (ndebug : bool) (names : list string) st :
  Runtime.well_formed st = true ->
  Runtime.well_formed (Runtime.calls ndebug names st) = true.
Proof.
  revert st. induction names as [|t names IH]; intros st Hwf; simpl; [exact Hwf|].
  apply IH, call_well_formed, Hwf.
Qed.

(** X12.  On a context that holds the base key and only live keys, the
    parallel [get_bootstrap_key] is safe for whatever thread calls it:
    it returns a live key, never fails its assertion and never reaches
    undefined behaviour; the key returned is the one now stored under
    the thread's name; and the context it leaves is again such a
    context, so that any further call is safe as well. *)
Theorem get_bootstrap_key_safe (ndebug : bool) threadName st :
  Runtime.well_formed st = true ->
  exists c,
    fst (Runtime.get_bootstrap_key true ndebug threadName st)
      = Runtime.Returned (Runtime.address c) /\
    Runtime.live (snd (Runtime.get_bootstrap_key true ndebug threadName st))
      (Runtime.address c) = true /\
    Runtime.bsk (Runtime.context (snd (Runtime.get_bootstrap_key true ndebug threadName st)))
      !! threadName = Some (Runtime.address c) /\
    Runtime.well_formed (snd (Runtime.get_bootstrap_key true ndebug threadName st)) = true.
Proof.
  intros Hwf. pose proof (call_well_formed ndebug threadName st Hwf) as Hwf'.
  destruct (call_cases ndebug threadName st Hwf)
    as [(c & key & Hhit & Hkey & Hcall)|(b & key & c & Hnone & Hbase & Hkey & Hfresh & Hcall)];
    rewrite Hcall in *; exists c;
    cbn [fst snd Runtime.bsk Runtime.context Runtime.keys] in *.
  - repeat split; try assumption. apply live_spec. eauto.
  - repeat split; try assumption.
    + apply live_spec. exists c, key. split; [reflexivity|]. simpl. apply lookup_insert_eq.
    + apply lookup_insert_eq.
Qed.

(** X13.  A call that returns never removes or replaces anything: every
    entry of the key map and every key object present before the call
    is still there, unchanged, after it, and the keyswitch key is left
    alone. *)
Theorem get_bootstrap_key_only_adds (ndebug : bool) threadName st p :
  fst (Runtime.get_bootstrap_key true ndebug threadName st) = Runtime.Returned p ->
  let st' := snd (Runtime.get_bootstrap_key true ndebug threadName st) in
  Runtime.bsk (Runtime.context st) ⊆ Runtime.bsk (Runtime.context st') /\
  Runtime.keys st ⊆ Runtime.keys st' /\
  Runtime.ksk (Runtime.context st') = Runtime.ksk (Runtime.context st).
Proof.
  unfold Runtime.get_bootstrap_key.
  destruct (Runtime.bsk (Runtime.context st) !! threadName) as [q|] eqn:Hlook.
  - intros _. simpl. auto.
  - unfold Runtime.map_index.
    destruct (Runtime.bsk (Runtime.context st) !! Runtime.BASE_CONTEXT_BSK)
      as [pb|] eqn:Hbase.
    + destruct pb as [|b]; simpl; [discriminate|].
      destruct (Runtime.keys st !! b) as [key|] eqn:Hkey; [|discriminate].
      unfold Runtime.map_insert. rewrite Hlook. simpl. intros _.
      repeat split.
      * now apply insert_subseteq.
      * apply insert_subseteq, not_elem_of_dom, is_fresh.
    + simpl. discriminate.
Qed.

End KeyCalls.

Section KeySequences.

Context {K : Type}.
Implicit Types (st : Runtime.state K) (names : list string).

Ltac by_elements x :=
  apply set_eq; intros x;
  rewrite ?elem_of_union, ?elem_of_difference, ?elem_of_union, ?elem_of_singleton,
    ?elem_of_empty.

Lemma names_seen_before (t : string) (S D : gset string) :
  t ∈ D -> D ∪ ({[t]} ∪ S) = D ∪ S /\ ({[t]} ∪ S) ∖ D = S ∖ D.
Proof.
  intros Ht. split; by_elements x; intuition (subst; tauto).
Qed.

Lemma names_new (t : string) (S D : gset string) :
  t ∉ D ->
  ({[t]} ∪ D) ∪ S = D ∪ ({[t]} ∪ S) /\
  ({[t]} ∪ S) ∖ D = {[t]} ∪ (S ∖ ({[t]} ∪ D)) /\
  {[t]} ## S ∖ ({[t]} ∪ D).
Proof.
  intros Ht. split; [|split].
  - by_elements x. tauto.
  - by_elements x. destruct (decide (x = t)) as [->|Hne]; tauto.
  - intros x Hx Hx'. apply elem_of_singleton in Hx as ->.
    apply elem_of_difference in Hx' as [_ Hx']. apply Hx', elem_of_union. left.
    now apply elem_of_singleton.
Qed.

(** X14.  Calls issued one after another create one clone per distinct
    thread name that had no entry yet, and no more: afterwards the key
    map has an entry for exactly the names it had and the names that
    called, and the number of key objects has grown by the number of
    distinct new names, however often each thread called. *)
Theorem calls_clone_once_per_name (ndebug : bool) names st :
  Runtime.well_formed st = true ->
  let st' := Runtime.calls ndebug names st in
  dom (Runtime.bsk (Runtime.context st'))
    = dom (Runtime.bsk (Runtime.context st)) ∪ (list_to_set names : gset string) /\
  size (Runtime.keys st')
    = (size (Runtime.keys st)
       + size ((list_to_set names : gset string) ∖ dom (Runtime.bsk (Runtime.context st))))%nat.
Proof.
  cbv zeta. revert st. induction names as [|t names IH]; intros st Hwf.
  - simpl. split.
    + by_elements x. tauto.
    + replace ((∅ : gset string) ∖ dom (Runtime.bsk (Runtime.context st)))
        with (∅ : gset string) by (by_elements x; tauto).
      rewrite size_empty. lia.
  - pose proof (call_well_formed ndebug t st Hwf) as Hwf1.
    specialize (IH _ Hwf1).
    change (Runtime.calls ndebug (t :: names) st)
      with (Runtime.calls ndebug names (snd (Runtime.get_bootstrap_key true ndebug t st))).
    change (list_to_set (t :: names) : gset string)
      with ({[t]} ∪ (list_to_set names : gset string)).
    destruct (call_cases ndebug t st Hwf)
      as [(c & key & Hhit & _ & Hcall)|(b & key & c & Hnone & _ & _ & Hfresh & Hcall)];
      rewrite Hcall in IH |- *;
      cbn [fst snd Runtime.bsk Runtime.context Runtime.keys] in IH |- *;
      destruct IH as [IHdom IHsize]; rewrite IHdom, IHsize.
    + assert (Hin : t ∈ dom (Runtime.bsk (Runtime.context st)))
        by (apply elem_of_dom; eauto).
      destruct (names_seen_before t (list_to_set names) _ Hin) as [-> ->].
      split; reflexivity.
    + assert (Hnotin : t ∉ dom (Runtime.bsk (Runtime.context st)))
        by (now apply not_elem_of_dom).
      destruct (names_new t (list_to_set names) _ Hnotin) as (Hdom & Hdiff & Hdisj).
      rewrite dom_insert_L, Hdom, Hdiff. split; [reflexivity|].
      rewrite map_size_insert_None by exact Hfresh.
      rewrite (size_union _ _ Hdisj), size_singleton. lia.
Qed.

Lemma call_distinct (ndebug : bool) (t : string) st :
  Runtime.well_formed st = true ->
  (forall n1 n2 p, Runtime.bsk (Runtime.context st) !! n1 = Some p ->
                   Runtime.bsk (Runtime.context st) !! n2 = Some p -> n1 = n2) ->
  let st' := snd (Runtime.get_bootstrap_key true ndebug t st) in
  forall n1 n2 p, Runtime.bsk (Runtime.context st') !! n1 = Some p ->
                  Runtime.bsk (Runtime.context st') !! n2 = Some p -> n1 = n2.
Proof.
  intros Hwf Hdist. cbv zeta.
  destruct (call_cases ndebug t st Hwf)
    as [(c & key & _ & _ & ->)|(b & key & c & Hnone & _ & _ & Hfresh & ->)];
    [exact Hdist|].
  cbn [snd Runtime.bsk Runtime.context].
  apply well_formed_spec in Hwf as [_ Hall].
  assert (Hold : forall n, Runtime.bsk (Runtime.context st) !! n
                           = Some (Runtime.address c) -> False).
  { intros n Hn. apply Hall, live_spec in Hn as (l & key' & [= <-] & Hl). congruence. }
  intros n1 n2 p H1 H2.
  destruct (decide (t = n1)) as [<-|Hne1]; destruct (decide (t = n2)) as [<-|Hne2].
  - reflexivity.
  - rewrite lookup_insert_eq in H1. rewrite lookup_insert_ne in H2 by done.
    injection H1 as <-. now elim (Hold n2).
  - rewrite lookup_insert_eq in H2. rewrite lookup_insert_ne in H1 by done.
    injection H2 as <-. now elim (Hold n1).
  - rewrite lookup_insert_ne in H1, H2 by done. eauto.
Qed.

(** X15.  Clones are never shared: if no two names of the key map
    designate the same key, then after any sequence of calls no two
    names do either -- each thread has a key object of its own,
    different from the base key and from every other thread's. *)
Theorem calls_keep_keys_distinct (ndebug : bool) names st :
  Runtime.well_formed st = true ->
  (forall n1 n2 p, Runtime.bsk (Runtime.context st) !! n1 = Some p ->
                   Runtime.bsk (Runtime.context st) !! n2 = Some p -> n1 = n2) ->
  let st' := Runtime.calls ndebug names st in
  forall n1 n2 p, Runtime.bsk (Runtime.context st') !! n1 = Some p ->
                  Runtime.bsk (Runtime.context st') !! n2 = Some p -> n1 = n2.
Proof.
  cbv zeta. revert st. induction names as [|t names IH]; intros st Hwf Hdist;
    simpl; [exact Hdist|].
  apply IH.
  - apply call_well_formed, Hwf.
  - apply (call_distinct ndebug t st Hwf Hdist).
Qed.

Lemma call_contents (ndebug : bool) (t : string) (key : K) st :
  Runtime.well_formed st = true ->
  (forall name p, Runtime.bsk (Runtime.context st) !! name = Some p ->
                  Runtime.contents st p = Some key) ->
  let st' := snd (Runtime.get_bootstrap_key true ndebug t st) in
  forall name p, Runtime.bsk (Runtime.context st') !! name = Some p ->
                 Runtime.contents st' p = Some key.
Proof.
  intros Hwf Hcont. cbv zeta.
  destruct (call_cases ndebug t st Hwf)
    as [(c & key' & _ & _ & ->)|(b & key' & c & Hnone & Hbase & Hkey & Hfresh & ->)];
    [exact Hcont|].
  cbn [snd Runtime.bsk Runtime.context].
  assert (key' = key) as ->.
  { specialize (Hcont _ _ Hbase). simpl in Hcont. congruence. }
  intros name p Hp.
  destruct (decide (t = name)) as [<-|Hne].
  - rewrite lookup_insert_eq in Hp. injection Hp as <-. simpl. apply lookup_insert_eq.
  - rewrite lookup_insert_ne in Hp by done.
    pose proof (Hcont _ _ Hp) as Hc. destruct p as [|l]; simpl in *; [discriminate|].
    rewrite lookup_insert_ne; [exact Hc|]. intros ->. congruence.
Qed.

Lemma calls_keep_entry (ndebug : bool) names (name : string) st :
  Runtime.well_formed st = true ->
  is_Some (Runtime.bsk (Runtime.context st) !! name) ->
  is_Some (Runtime.bsk (Runtime.context (Runtime.calls ndebug names st)) !! name).
Proof.
  revert st. induction names as [|t names IH]; intros st Hwf Hnow; [exact Hnow|].
  change (Runtime.calls ndebug (t :: names) st)
    with (Runtime.calls ndebug names (snd (Runtime.get_bootstrap_key true ndebug t st))).
  apply IH; [apply call_well_formed, Hwf|].
  destruct (call_cases ndebug t st Hwf)
    as [(c & key' & _ & _ & ->)|(b & key' & c & Hnone & _ & _ & _ & ->)];
    cbn [snd Runtime.bsk Runtime.context]; [exact Hnow|].
  rewrite lookup_insert_ne; [exact Hnow|]. intros ->.
  rewrite Hnone in Hnow. now destruct Hnow.
Qed.

Lemma calls_add_entries (ndebug : bool) names (name : string) st :
  Runtime.well_formed st = true -> In name names ->
  is_Some (Runtime.bsk (Runtime.context (Runtime.calls ndebug names st)) !! name).
Proof.
  revert st. induction names as [|t names IH]; intros st Hwf Hin; [destruct Hin|].
  change (Runtime.calls ndebug (t :: names) st)
    with (Runtime.calls ndebug names (snd (Runtime.get_bootstrap_key true ndebug t st))).
  pose proof (call_well_formed ndebug t st Hwf) as Hwf1.
  destruct Hin as [->|Hin]; [|now apply IH].
  apply calls_keep_entry; [exact Hwf1|].
  destruct (call_cases ndebug name st Hwf)
    as [(c & key' & Hhit & _ & ->)|(b & key' & c & _ & _ & _ & _ & ->)];
    cbn [snd Runtime.bsk Runtime.context]; [eauto|].
  rewrite lookup_insert_eq. eauto.
Qed.

Lemma calls_contents (ndebug : bool) names (key : K) st :
  Runtime.well_formed st = true ->
  (forall name p, Runtime.bsk (Runtime.context st) !! name = Some p ->
                  Runtime.contents st p = Some key) ->
  forall name p,
    Runtime.bsk (Runtime.context (Runtime.calls ndebug names st)) !! name = Some p ->
    Runtime.contents (Runtime.calls ndebug names st) p = Some key.
Proof.
  revert st. induction names as [|t names IH]; intros st Hwf Hcont; [exact Hcont|].
  change (Runtime.calls ndebug (t :: names) st)
    with (Runtime.calls ndebug names (snd (Runtime.get_bootstrap_key true ndebug t st))).
  apply IH.
  - apply call_well_formed, Hwf.
  - apply (call_contents ndebug t key st Hwf Hcont).
Qed.

(** X16.  Every thread works on a copy of the base key: if all keys of
    the map hold the contents [key] (as when the map holds the base key
    alone), then after any sequence of calls every thread that called
    has an entry, and the key it designates holds [key]. *)
Theorem calls_give_copies (ndebug : bool) names (key : K) st :
  Runtime.well_formed st = true ->
  (forall name p, Runtime.bsk (Runtime.context st) !! name = Some p ->
                  Runtime.contents st p = Some key) ->
  let st' := Runtime.calls ndebug names st in
  forall name, In name names ->
    exists p, Runtime.bsk (Runtime.context st') !! name = Some p /\
              Runtime.contents st' p = Some key.
Proof.
  intros Hwf Hcont st' name Hin.
  destruct (calls_add_entries ndebug names name st Hwf Hin) as [p Hp].
  exists p. split; [exact Hp|].
  exact (calls_contents ndebug names key st Hwf Hcont name p Hp).
Qed.

End KeySequences.

Lemma scenario_state_single_entry (name : string) (p : Runtime.pointer) :
  Runtime.bsk (Runtime.context Scenario.scenario_state) !! name = Some p ->
  name = Runtime.BASE_CONTEXT_BSK /\ p = Runtime.address 1.
Proof.
  unfold Scenario.scenario_state. cbn [Runtime.bsk Runtime.context].
  intros Hp. apply lookup_singleton_Some in Hp as [<- <-]. auto.
Qed.

Lemma get_bootstrap_key_safe_witness :
  exists c,
    fst (Runtime.get_bootstrap_key true false Scenario.scenario_thread Scenario.scenario_state)
      = Runtime.Returned (Runtime.address c) /\
    Runtime.live
      (snd (Runtime.get_bootstrap_key true false Scenario.scenario_thread
              Scenario.scenario_state))
      (Runtime.address c) = true /\
    Runtime.bsk (Runtime.context
      (snd (Runtime.get_bootstrap_key true false Scenario.scenario_thread
              Scenario.scenario_state)))
      !! Scenario.scenario_thread = Some (Runtime.address c) /\
    Runtime.well_formed
      (snd (Runtime.get_bootstrap_key true false Scenario.scenario_thread
              Scenario.scenario_state)) = true.
Proof.
  apply (get_bootstrap_key_safe false Scenario.scenario_thread Scenario.scenario_state).
  vm_compute. reflexivity.
Defined.

Lemma get_bootstrap_key_only_adds_witness :
  Runtime.bsk (Runtime.context Scenario.scenario_state)
    ⊆ Runtime.bsk (Runtime.context
        (snd (Runtime.get_bootstrap_key true false Scenario.scenario_thread
                Scenario.scenario_state))) /\
  Runtime.keys Scenario.scenario_state
    ⊆ Runtime.keys
        (snd (Runtime.get_bootstrap_key true false Scenario.scenario_thread
                Scenario.scenario_state)) /\
  Runtime.ksk (Runtime.context
    (snd (Runtime.get_bootstrap_key true false Scenario.scenario_thread
            Scenario.scenario_state)))
    = Runtime.ksk (Runtime.context Scenario.scenario_state).
Proof.
  apply (get_bootstrap_key_only_adds false Scenario.scenario_thread Scenario.scenario_state
           (Runtime.address 2)).
  vm_compute. reflexivity.
Defined.

Lemma calls_clone_once_per_name_witness :
  dom (Runtime.bsk (Runtime.context
         (Runtime.calls false ["worker-thread#0"; "worker-thread#1"; "worker-thread#0"]
            Scenario.scenario_state)))
    = dom (Runtime.bsk (Runtime.context Scenario.scenario_state))
      ∪ (list_to_set ["worker-thread#0"; "worker-thread#1"; "worker-thread#0"] : gset string) /\
  size (Runtime.keys
          (Runtime.calls false ["worker-thread#0"; "worker-thread#1"; "worker-thread#0"]
             Scenario.scenario_state))
    = (size (Runtime.keys Scenario.scenario_state)
       + size ((list_to_set ["worker-thread#0"; "worker-thread#1"; "worker-thread#0"]
                  : gset string)
               ∖ dom (Runtime.bsk (Runtime.context Scenario.scenario_state))))%nat.
Proof.
  apply (calls_clone_once_per_name false
           ["worker-thread#0"; "worker-thread#1"; "worker-thread#0"]
           Scenario.scenario_state).
  vm_compute. reflexivity.
Defined.

Lemma calls_keep_keys_distinct_witness :
  exists p q,
    Runtime.bsk (Runtime.context
      (Runtime.calls false ["worker-thread#0"; "worker-thread#1"; "worker-thread#0"]
         Scenario.scenario_state)) !! "worker-thread#0" = Some p /\
    Runtime.bsk (Runtime.context
      (Runtime.calls false ["worker-thread#0"; "worker-thread#1"; "worker-thread#0"]
         Scenario.scenario_state)) !! "worker-thread#1" = Some q /\
    p <> q.
Proof.
  exists (Runtime.address 2), (Runtime.address 3).
  split; [reflexivity|]. split; [reflexivity|].
  intros Heq.
  assert (Hsame : "worker-thread#0" = "worker-thread#1").
  { apply (calls_keep_keys_distinct false
             ["worker-thread#0"; "worker-thread#1"; "worker-thread#0"]
             Scenario.scenario_state) with (p := Runtime.address 2).
    - vm_compute. reflexivity.
    - intros n1 n2 p H1 H2.
      apply scenario_state_single_entry in H1 as [-> _].
      apply scenario_state_single_entry in H2 as [-> _]. reflexivity.
    - reflexivity.
    - rewrite Heq. reflexivity. }
  discriminate Hsame.
Defined.

Lemma calls_give_copies_witness :
  exists p,
    Runtime.bsk (Runtime.context
      (Runtime.calls false ["worker-thread#0"; "worker-thread#1"; "worker-thread#0"]
         Scenario.scenario_state)) !! "worker-thread#1" = Some p /\
    Runtime.contents
      (Runtime.calls false ["worker-thread#0"; "worker-thread#1"; "worker-thread#0"]
         Scenario.scenario_state) p = Some Scenario.scenario_base_key.
Proof.
  apply (calls_give_copies false
           ["worker-thread#0"; "worker-thread#1"; "worker-thread#0"]
           Scenario.scenario_base_key Scenario.scenario_state).
  - vm_compute. reflexivity.
  - intros name p Hp. apply scenario_state_single_entry in Hp as [_ ->]. reflexivity.
  - right. left. reflexivity.
Defined.

(** ** Loading what was compiled *)

Lemma find_first {A} (f : A -> bool) (l : list A) (x : A) :
  find f l = Some x <->
  exists before after,
    l = before ++ x :: after /\ f x = true /\ forall y, In y before -> f y = false.
Proof.
  induction l as [|a l IH]; simpl.
  - split; [discriminate|]. intros (before & after & Heq & _).
    destruct before; discriminate.
  - destruct (f a) eqn:Hfa.
    + split.
      * intros [= <-]. exists [], l. repeat split; [exact Hfa|]. intros y [].
      * intros (before & after & Heq & Hfx & Hbefore).
        destruct before as [|b before]; simpl in Heq; injection Heq as -> ->.
        -- reflexivity.
        -- rewrite (Hbefore b) in Hfa by (now left). discriminate.
    + rewrite IH. split.
      * intros (before & after & -> & Hfx & Hbefore).
        exists (a :: before), after. repeat split; [exact Hfx|].
        intros y [<-|Hy]; [exact Hfa|now apply Hbefore].
      * intros (before & after & Heq & Hfx & Hbefore).
        destruct before as [|b before]; simpl in Heq; injection Heq as -> ->.
        -- congruence.
        -- exists before, after. repeat split; [exact Hfx|].
           intros y Hy. apply Hbefore. now right.
Qed.

Lemma find_none {A} (f : A -> bool) (l : list A) :
  find f l = None <-> forall y, In y l -> f y = false.
Proof.
  induction l as [|a l IH]; simpl.
  - split; [intros _ y []|reflexivity].
  - destruct (f a) eqn:Hfa.
    + split; [discriminate|]. intros H. rewrite (H a) in Hfa by (now left). discriminate.
    + rewrite IH. split.
      * intros H y [<-|Hy]; [exact Hfa|now apply H].
      * intros H y Hy. apply H. now right.
Qed.

Section LibraryLoad.

Variables SourceMgr Library ServerLambda ClientParameters Artifact : Type.
Variable functionName : ClientParameters -> string.
Variable engine_compile :
  Support.CompilationOptions -> SourceMgr -> string -> string ->
  gmap string Artifact -> Support.Expected Library * gmap string Artifact.
Variable ServerLambda_load :
  string -> string -> gmap string Artifact -> Support.Outcome ServerLambda.
Variable getClientParametersPath : string -> string.
Variable ClientParameters_load :
  string -> gmap string Artifact -> Support.Outcome (list ClientParameters).

Let compile := Support.compile SourceMgr Library Artifact engine_compile.
Let loadServerLambda := Support.loadServerLambda ServerLambda Artifact ServerLambda_load.
Let loadClientParameters :=
  Support.loadClientParameters ClientParameters Artifact functionName
    getClientParametersPath ClientParameters_load.

(** What a successful compilation returns. *)
Lemma compile_success self program options disk result disk' :
  compile self program options disk = (Support.Success result, disk') ->
  exists library name,
    engine_compile options program (Support.outputPath self)
      (Support.runtimeLibraryPath self) disk = (Support.Success library, disk') /\
    Support.clientParametersFuncName options = Some name /\
    result = {| Support.libraryPath := Support.outputPath self;
                Support.funcName := name |}.
Proof.
  unfold compile, Support.compile.
  destruct (engine_compile options program (Support.outputPath self)
              (Support.runtimeLibraryPath self) disk) as [[library|err] disk1];
    [|discriminate].
  destruct (Support.clientParametersFuncName options) as [name|]; [|discriminate].
  intros [= <- <-]. eauto.
Qed.

(** X17.  [loadClientParameters] returns the first entry, in the order
    of the loaded list, whose [functionName] is the [funcName] of the
    compilation result: it succeeds with [param] exactly when the
    parameters load and [param] is preceded in the list by entries of
    other names only; later entries of the same name are never
    returned. *)
Theorem loadClientParameters_first_match
    (result : Support.LibraryCompilationResult) (disk : gmap string Artifact)
    (param : ClientParameters) :
  loadClientParameters result disk = Support.Success param <->
  exists before after,
    ClientParameters_load (getClientParametersPath (Support.libraryPath result)) disk
      = Support.Value (before ++ param :: after) /\
    functionName param = Support.funcName result /\
    forall other, In other before -> functionName other <> Support.funcName result.
Proof.
  unfold loadClientParameters, Support.loadClientParameters.
  destruct (ClientParameters_load _ disk) as [params|mesg].
  - destruct (find _ params) as [found|] eqn:Hfind.
    + apply find_first in Hfind as (before & after & -> & Hname & Hbefore).
      apply String.eqb_eq in Hname. split.
      * intros [= <-]. exists before, after. repeat split; [exact Hname|].
        intros other Hin. apply String.eqb_neq. auto.
      * intros (before' & after' & [= Heq] & Hname' & Hbefore'). f_equal.
        assert (Hfind : find (fun q => String.eqb (functionName q) (Support.funcName result))
                          (before ++ found :: after) = Some found).
        { apply find_first. exists before, after. repeat split; [|exact Hbefore].
          now apply String.eqb_eq. }
        rewrite Heq in Hfind. apply find_first in Hfind as Hfind'.
        assert (Hfind2 : find (fun q => String.eqb (functionName q) (Support.funcName result))
                          (before' ++ param :: after') = Some param).
        { apply find_first. exists before', after'. repeat split.
          - now apply String.eqb_eq.
          - intros y Hy. apply String.eqb_neq. auto. }
        congruence.
    + split; [discriminate|].
      intros (before & after & [= ->] & Hname & _).
      rewrite find_none in Hfind.
      specialize (Hfind param ltac:(apply in_or_app; right; now left)).
      apply String.eqb_neq in Hfind. contradiction.
  - split; [discriminate|]. intros (before & after & Heq & _). discriminate.
Qed.

(** X18.  [loadClientParameters] fails in two ways only: with the
    message of [ClientParameters::load] when the parameters do not
    load, and, when they load without any entry of the wanted name,
    with ["ClientLambda: cannot find function(<name>) in client
    parameters path(<path>)"], naming the function and the path derived
    from the library path. *)
Theorem loadClientParameters_failures
    (result : Support.LibraryCompilationResult) (disk : gmap string Artifact)
    (message : string) :
  let path := getClientParametersPath (Support.libraryPath result) in
  loadClientParameters result disk = Support.Failure message <->
  ClientParameters_load path disk = Support.Error message \/
  exists params,
    ClientParameters_load path disk = Support.Value params /\
    (forall other, In other params -> functionName other <> Support.funcName result) /\
    message = "ClientLambda: cannot find function(" +:+ Support.funcName result +:+
              ") in client parameters path(" +:+ path +:+ ")".
Proof.
  cbv zeta. unfold loadClientParameters, Support.loadClientParameters.
  destruct (ClientParameters_load _ disk) as [params|mesg].
  - destruct (find _ params) as [found|] eqn:Hfind.
    + split; [discriminate|].
      intros [Herr|(params' & [= <-] & Hnone & _)]; [discriminate|].
      apply find_first in Hfind as (before & after & -> & Hname & _).
      apply String.eqb_eq in Hname.
      elim (Hnone found); [apply in_or_app; right; now left|exact Hname].
    + rewrite find_none in Hfind. split.
      * intros [= <-]. right. exists params. repeat split.
        intros other Hin. apply String.eqb_neq. auto.
      * intros [Herr|(params' & [= <-] & _ & ->)]; [discriminate|reflexivity].
  - split.
    + intros [= <-]. left. reflexivity.
    + intros [[= <-]|(params & Heq & _)]; [reflexivity|discriminate].
Qed.

(** X19.  After a successful [compile], [loadServerLambda] asks
    [ServerLambda::load] for the function named in the compilation
    options, in the library at the support's [outputPath], and passes
    its answer on: the lambda it found, or its error message. *)
Theorem loadServerLambda_after_compile
    (self : Support.LibrarySupport) (program : SourceMgr)
    (options : Support.CompilationOptions) (disk disk' : gmap string Artifact)
    (result : Support.LibraryCompilationResult) :
  compile self program options disk = (Support.Success result, disk') ->
  exists name,
    Support.clientParametersFuncName options = Some name /\
    loadServerLambda result disk'
    = match ServerLambda_load name (Support.outputPath self) disk' with
      | Support.Value lambda => Support.Success lambda
      | Support.Error mesg => Support.Failure mesg
      end.
Proof.
  intros Hcompile.
  apply compile_success in Hcompile as (library & name & _ & Hname & ->).
  exists name. split; [exact Hname|].
  unfold loadServerLambda, Support.loadServerLambda. simpl.
  now destruct (ServerLambda_load name (Support.outputPath self) disk').
Qed.

(** X20.  After a successful [compile], the client parameters that
    [loadClientParameters] returns are those of the function named in
    the compilation options, taken from the list stored at the path
    derived from the support's [outputPath]. *)
Theorem loadClientParameters_after_compile
    (self : Support.LibrarySupport) (program : SourceMgr)
    (options : Support.CompilationOptions) (disk disk' : gmap string Artifact)
    (result : Support.LibraryCompilationResult) (param : ClientParameters) :
  compile self program options disk = (Support.Success result, disk') ->
  loadClientParameters result disk' = Support.Success param ->
  Support.clientParametersFuncName options = Some (functionName param) /\
  exists params,
    ClientParameters_load (getClientParametersPath (Support.outputPath self)) disk'
      = Support.Value params /\
    In param params.
Proof.
  intros Hcompile Hload.
  apply compile_success in Hcompile as (library & name & _ & Hname & ->).
  unfold loadClientParameters, Support.loadClientParameters in Hload. simpl in Hload.
  destruct (ClientParameters_load _ disk') as [params|mesg]; [|discriminate].
  destruct (find _ params) as [found|] eqn:Hfind; [|discriminate].
  injection Hload as ->.
  apply find_first in Hfind as (before & after & -> & Hfound & _).
  apply String.eqb_eq in Hfound. split; [congruence|].
  eexists. split; [reflexivity|]. apply in_or_app. right. now left.
Qed.

(** X21.  The outcomes of [compile]: a failure of the engine is
    returned as it is, with the disk as the engine left it, whether or
    not a function name was given (the engine's error takes precedence
    over the missing name); and the call succeeds exactly when the
    engine succeeds and the options carry a function name. *)
Theorem compile_outcomes
    (self : Support.LibrarySupport) (program : SourceMgr)
    (options : Support.CompilationOptions) (disk : gmap string Artifact) :
  (forall err disk',
     engine_compile options program (Support.outputPath self)
       (Support.runtimeLibraryPath self) disk = (Support.Failure err, disk') ->
     compile self program options disk = (Support.Failure err, disk'))
  /\
  (forall result disk',
     compile self program options disk = (Support.Success result, disk') <->
     exists library name,
       engine_compile options program (Support.outputPath self)
         (Support.runtimeLibraryPath self) disk = (Support.Success library, disk') /\
       Support.clientParametersFuncName options = Some name /\
       result = {| Support.libraryPath := Support.outputPath self;
                   Support.funcName := name |}).
Proof.
  split.
  - intros err disk' Hengine. unfold compile, Support.compile. now rewrite Hengine.
  - intros result disk'. split; [apply compile_success|].
    intros (library & name & Hengine & Hname & ->).
    unfold compile, Support.compile. now rewrite Hengine, Hname.
Qed.

End LibraryLoad.

Lemma loadClientParameters_first_match_witness :
  Support.loadClientParameters (string * nat) string fst
    Scenario.stand_in_parameters_path Scenario.stand_in_parameters_load
    {| Support.libraryPath := "out/libfhe"; Support.funcName := "main" |} ∅
  = Support.Success ("main", 2%nat).
Proof.
  apply (loadClientParameters_first_match (string * nat) string fst
           Scenario.stand_in_parameters_path Scenario.stand_in_parameters_load
           {| Support.libraryPath := "out/libfhe"; Support.funcName := "main" |} ∅
           ("main", 2%nat)).
  exists [("helper", 1%nat)], [("main", 3%nat)].
  split; [reflexivity|]. split; [reflexivity|].
  intros other [<-|[]]. discriminate.
Defined.

Lemma loadClientParameters_failures_witness :
  Support.loadClientParameters (string * nat) string fst
    Scenario.stand_in_parameters_path Scenario.stand_in_parameters_load
    {| Support.libraryPath := "out/libfhe"; Support.funcName := "absent" |} ∅
  = Support.Failure
      "ClientLambda: cannot find function(absent) in client parameters path(out/libfhe.params)".
Proof.
  apply (loadClientParameters_failures (string * nat) string fst
           Scenario.stand_in_parameters_path Scenario.stand_in_parameters_load
           {| Support.libraryPath := "out/libfhe"; Support.funcName := "absent" |} ∅).
  right. eexists. split; [reflexivity|]. split; [|reflexivity].
  intros other [<-|[<-|[<-|[]]]]; discriminate.
Defined.

Lemma loadServerLambda_after_compile_witness :
  exists name,
    Support.clientParametersFuncName Scenario.scenario_options_with_name = Some name /\
    Support.loadServerLambda string string Scenario.stand_in_server_load
      {| Support.libraryPath := "out/libfhe"; Support.funcName := "main" |}
      (<["out/libfhe" := "module"]> ∅)
    = match Scenario.stand_in_server_load name
              (Support.outputPath Scenario.scenario_support)
              (<["out/libfhe" := "module"]> ∅) with
      | Support.Value lambda => Support.Success lambda
      | Support.Error mesg => Support.Failure mesg
      end.
Proof.
  apply (loadServerLambda_after_compile string unit string string
           Scenario.stand_in_engine Scenario.stand_in_server_load
           Scenario.scenario_support "module" Scenario.scenario_options_with_name ∅).
  reflexivity.
Defined.

Lemma loadClientParameters_after_compile_witness :
  Support.clientParametersFuncName Scenario.scenario_options_with_name
    = Some (fst ("main", 2%nat)) /\
  exists params,
    Scenario.stand_in_parameters_load
      (Scenario.stand_in_parameters_path (Support.outputPath Scenario.scenario_support))
      (<["out/libfhe" := "module"]> ∅) = Support.Value params /\
    In ("main", 2%nat) params.
Proof.
  apply (loadClientParameters_after_compile string unit (string * nat) string fst
           Scenario.stand_in_engine Scenario.stand_in_parameters_path
           Scenario.stand_in_parameters_load
           Scenario.scenario_support "module" Scenario.scenario_options_with_name ∅
           (<["out/libfhe" := "module"]> ∅)
           {| Support.libraryPath := "out/libfhe"; Support.funcName := "main" |});
    reflexivity.
Defined.

Lemma compile_outcomes_witness :
  Support.compile string unit string Scenario.stand_in_engine
    Scenario.scenario_support "module" Scenario.scenario_options_with_name ∅
  = (Support.Success {| Support.libraryPath := "out/libfhe"; Support.funcName := "main" |},
     <["out/libfhe" := "module"]> ∅).
Proof.
  apply (compile_outcomes string unit string Scenario.stand_in_engine
           Scenario.scenario_support "module" Scenario.scenario_options_with_name ∅).
  exists tt, "main". repeat split; reflexivity.
Defined.

Lemma printParamName_equal_iff_witness :
  Harness.printParamName (Harness.mk_params 567 5 256 15 1 2 1 5 2 5)
  = Harness.printParamName (Harness.mk_params 567 5 256 15 1 4 2 5 7 9).
Proof.
  apply (printParamName_equal_iff (Harness.mk_params 567 5 256 15 1 2 1 5 2 5)
           (Harness.mk_params 567 5 256 15 1 4 2 5 7 9)).
  repeat split; reflexivity.
Defined.

Lemma printParamName_characters_witness :
  Harness.string_forall Harness.name_char
    (Harness.printParamName Scenario.scenario_params) = true.
Proof.
  apply (printParamName_characters Scenario.scenario_params). by_computation.
Defined.
